(** * ST7735 TFT controller driver (package st7735): shallow embedding

    The driver talks to the panel through three collaborators: an SPI
    connection ([conn.Conn], method [Tx]), GPIO output pins
    ([gpio.PinOut], method [Out]) and the clock ([time.Sleep]).  Every
    call to one of them is recorded, together with the error it returned,
    in a chronological trace; the answer of a collaborator is given by an
    environment that sees the whole history.  Driver methods are
    computations in a small trace-and-error monad. *)

From Stdlib Require Import ZArith List Lia Bool.
From Stdlib Require String.
Import ListNotations.
Local Open Scope Z_scope.

(* ================================================================= *)
(** ** Go base types *)

Module Go.

(** [int] on a 64-bit target: two's complement wrap-around. *)
Definition int_bits : Z := 64.
Definition min_int : Z := - 2 ^ (int_bits - 1).
Definition max_int : Z := 2 ^ (int_bits - 1) - 1.
Definition wrap_int (z : Z) : Z :=
  (z + 2 ^ (int_bits - 1)) mod 2 ^ int_bits - 2 ^ (int_bits - 1).
Definition is_int (z : Z) : Prop := min_int <= z <= max_int.

Definition int_add (a b : Z) : Z := wrap_int (a + b).
Definition int_sub (a b : Z) : Z := wrap_int (a - b).
Definition int_mul (a b : Z) : Z := wrap_int (a * b).

(** Conversions [byte(x)], [uint16(x)], [uint32(x)] truncate. *)
Definition to_byte (z : Z) : Z := z mod 256.
Definition to_uint16 (z : Z) : Z := z mod 2 ^ 16.
Definition to_uint32 (z : Z) : Z := z mod 2 ^ 32.
Definition is_byte (z : Z) : Prop := 0 <= z < 256.

(** Slices of bytes are lists (capacity and length coincide); [len] is
    an [int]. *)
Definition len {A} (l : list A) : Z := Z.of_nat (length l).

(** [s[lo:hi]] panics ([None]) unless [0 <= lo <= hi <= len(s)]. *)
Definition slice {A} (s : list A) (lo hi : Z) : option (list A) :=
  if (0 <=? lo) && (lo <=? hi) && (hi <=? len s)
  then Some (firstn (Z.to_nat (hi - lo)) (skipn (Z.to_nat lo) s))
  else None.

(** [s[lo:]] *)
Definition slice_from {A} (s : list A) (lo : Z) : option (list A) :=
  slice s lo (len s).

(** The values of a counting loop [for i := lo; i < hi; i++]. *)
Definition zrange (lo hi : Z) : list Z :=
  map (fun k => lo + Z.of_nat k) (seq 0 (Z.to_nat (hi - lo))).

End Go.
Import Go.

(* ================================================================= *)
(** ** Collaborators, traces and the driver monad *)

Definition pin := nat.
Definition conn := nat.
Definition error := nat.

Inductive Level := Low | High.

(** One call on a collaborator. *)
Inductive call :=
| PinOut (p : pin) (l : Level)          (* p.Out(l) *)
| ConnTx (c : conn) (w : list Z)        (* c.Tx(w, nil) *)
| TimeSleep (d : Z).                    (* time.Sleep(d), d in nanoseconds *)

Definition event : Type := call * option error.
Definition trace := list event.

(** The environment decides, from the history, what a call returns
    ([None] is Go's [nil] error). *)
Definition env := trace -> call -> option error.

Definition env_ok : env := fun _ _ => None.

Inductive outcome (A : Type) :=
| Ok (a : A)
| Err (e : error)
| Panic.
Arguments Ok {A} a.
Arguments Err {A} e.
Arguments Panic {A}.

Definition M (A : Type) : Type := env -> trace -> trace * outcome A.

Definition ret {A} (a : A) : M A := fun _ t => (t, Ok a).

Definition bind {A B} (m : M A) (f : A -> M B) : M B :=
  fun E t =>
    match m E t with
    | (t', Ok a) => f a E t'
    | (t', Err e) => (t', Err e)
    | (t', Panic) => (t', Panic)
    end.

Notation "x <- m ;; k" := (bind m (fun x => k))
  (at level 61, m at next level, right associativity).
Notation "m ;;; k" := (bind m (fun _ => k))
  (at level 61, right associativity).

Definition panic {A} : M A := fun _ t => (t, Panic).

(** A call whose error is checked: [if err := call; err != nil { return err }]. *)
Definition perform (c : call) : M unit :=
  fun E t =>
    let r := E t c in
    (t ++ [(c, r)], match r with None => Ok tt | Some e => Err e end).

(** A call whose result is dropped. *)
Definition perform_ignore (c : call) : M unit :=
  fun E t => (t ++ [(c, E t c)], Ok tt).

(** [time.Sleep] returns nothing. *)
Definition sleep (d : Z) : M unit :=
  fun _ t => (t ++ [(TimeSleep d, None)], Ok tt).

Definition lift_option {A} (o : option A) : M A :=
  match o with Some a => ret a | None => panic end.

(** Running a method from the empty history. *)
Definition run {A} (m : M A) (E : env) : trace * outcome A := m E [].

Definition calls (t : trace) : list call := map fst t.

Definition is_tx (c : call) : bool :=
  match c with ConnTx _ _ => true | _ => false end.
Definition is_sleep (c : call) : bool :=
  match c with TimeSleep _ => true | _ => false end.

(** Payloads of the transport transactions of a trace, in order. *)
Fixpoint tx_payloads (cs : list call) : list (list Z) :=
  match cs with
  | [] => []
  | ConnTx _ w :: r => w :: tx_payloads r
  | _ :: r => tx_payloads r
  end.

(** Durations of the sleeps of a trace, in order. *)
Fixpoint sleeps (cs : list call) : list Z :=
  match cs with
  | [] => []
  | TimeSleep d :: r => d :: sleeps r
  | _ :: r => sleeps r
  end.

(* ================================================================= *)
(** ** Constants *)

Definition ST7735_SWRESET : Z := 0x01.
Definition ST7735_SLPIN : Z := 0x10.
Definition ST7735_SLPOUT : Z := 0x11.
Definition ST7735_FRMCTR1 : Z := 0xB1.
Definition ST7735_FRMCTR2 : Z := 0xB2.
Definition ST7735_FRMCTR3 : Z := 0xB3.
Definition ST7735_INVCTR : Z := 0xB4.
Definition ST7735_INVOFF : Z := 0x20.
Definition ST7735_INVON : Z := 0x21.
Definition ST7735_PWCTR1 : Z := 0xC0.
Definition ST7735_PWCTR2 : Z := 0xC1.
Definition ST7735_PWCTR4 : Z := 0xC3.
Definition ST7735_PWCTR5 : Z := 0xC4.
Definition ST7735_VMCTR1 : Z := 0xC5.
Definition ST7735_MADCTL : Z := 0x36.
Definition ST7735_COLMOD : Z := 0x3A.
Definition ST7735_CASET : Z := 0x2A.
Definition ST7735_RASET : Z := 0x2B.
Definition ST7735_RAMWR : Z := 0x2C.
Definition ST7735_GMCTRP1 : Z := 0xE0.
Definition ST7735_GMCTRN1 : Z := 0xE1.
Definition ST7735_NORON : Z := 0x13.
Definition ST7735_DISPON : Z := 0x29.
Definition ST7735_TFTWIDTH : Z := 80.
Definition ST7735_TFTHEIGHT : Z := 160.
Definition ST7735_COLS : Z := 132.
Definition ST7735_ROWS : Z := 162.

Definition ChunkSize : Z := 4096.

(** [time.Millisecond], in nanoseconds. *)
Definition Millisecond : Z := 1000000.

(* ================================================================= *)
(** ** Device handle *)

Record Opts := mkOpts {
  Width : Z;
  Height : Z;
  OffsetLeft : Z;
  OffsetTop : Z
}.

Definition wf_opts (o : Opts) : Prop :=
  is_byte (Width o) /\ is_byte (Height o) /\
  is_byte (OffsetLeft o) /\ is_byte (OffsetTop o).

Definition DefaultOpts : Opts :=
  mkOpts ST7735_TFTWIDTH ST7735_TFTHEIGHT
         ((ST7735_COLS - ST7735_TFTWIDTH) / 2)
         ((ST7735_ROWS - ST7735_TFTHEIGHT) / 2).

(** The pins are interface values and may be [nil] ([None]). *)
Record Dev := mkDev {
  c : conn;
  dc : option pin;
  rst : option pin;
  backlight : option pin;
  opts : Opts
}.

Record commandAndData := mkCad {
  cmd : list Z;
  data : list Z;
  sleep_ : Z
}.

(** Calling [Out] on a nil pin panics. *)
Definition pin_out (p : option pin) (l : Level) : M unit :=
  match p with
  | None => panic
  | Some q => perform (PinOut q l)
  end.

(* ================================================================= *)
(** ** Send primitives *)

Definition sendCommand (d : Dev) (w : list Z) : M unit :=
  pin_out (dc d) Low ;;;
  perform (ConnTx (c d) w).

(** The loop of [sendData]; [fuel] bounds the number of iterations. *)
Fixpoint sendData_loop (fuel : nat) (d : Dev) (w : list Z) (offset : Z)
  : M unit :=
  match fuel with
  | O => ret tt
  | S fuel' =>
      if offset <? len w then
        let end_ := int_add offset ChunkSize in
        let end_ := if end_ >? len w then len w else end_ in
        chunk <- lift_option (slice w offset end_) ;;
        perform (ConnTx (c d) chunk) ;;;
        sendData_loop fuel' d w (int_add offset ChunkSize)
      else ret tt
  end.

(** Each iteration but a panicking one advances by [ChunkSize >= 1], so
    [length w + 1] iterations are never exhausted (see
    [sendData_loop_fuel]). *)
Definition sendData (d : Dev) (w : list Z) : M unit :=
  pin_out (dc d) High ;;;
  sendData_loop (S (length w)) d w 0.

Fixpoint sendBatch (d : Dev) (commands : list commandAndData) : M unit :=
  match commands with
  | [] => ret tt
  | cad :: rest =>
      sendCommand d (cmd cad) ;;;
      if len (data cad) =? 0 then sendBatch d rest
      else
        sendData d (data cad) ;;;
        (if sleep_ cad >? 0 then sleep (sleep_ cad) else ret tt) ;;;
        sendBatch d rest
  end.

(* ================================================================= *)
(** ** Initialisation, power and backlight *)

Definition invert : commandAndData := mkCad [ST7735_INVON] [] 0.

Definition init_table (o : Opts) : list commandAndData :=
  let width := Width o in
  let height := Height o in
  let offsetLeft := OffsetLeft o in
  let offsetTop := OffsetTop o in
  [ mkCad [ST7735_SWRESET] [] (150 * Millisecond);
    mkCad [ST7735_SLPOUT] [] (500 * Millisecond);
    mkCad [ST7735_FRMCTR1] [0x01; 0x2C; 0x2D] 0;
    mkCad [ST7735_FRMCTR2] [0x01; 0x2C; 0x2D] 0;
    mkCad [ST7735_FRMCTR3] [0x01; 0x2C; 0x2D; 0x01; 0x2C; 0x2D] 0;
    mkCad [ST7735_INVCTR] [0x07] 0;
    mkCad [ST7735_PWCTR1] [0xA2; 0x02; 0x84] 0;
    mkCad [ST7735_PWCTR2] [0x0A; 0x00] 0;
    mkCad [ST7735_PWCTR4] [0x8A; 0x2A] 0;
    mkCad [ST7735_PWCTR5] [0x8A; 0xEE] 0;
    mkCad [ST7735_VMCTR1] [0x0E] 0;
    invert;
    mkCad [ST7735_MADCTL] [0xC8] 0;
    mkCad [ST7735_COLMOD] [0x05] 0;
    mkCad [ST7735_CASET]
          [0x00; offsetLeft; 0x00; to_byte (to_byte (width + offsetLeft) - 1)] 0;
    mkCad [ST7735_RASET]
          [0x00; offsetTop; 0x00; to_byte (to_byte (height + offsetTop) - 1)] 0;
    mkCad [ST7735_GMCTRP1]
          [0x02; 0x1c; 0x07; 0x12; 0x37; 0x32; 0x29; 0x2d;
           0x29; 0x25; 0x2B; 0x39; 0x00; 0x01; 0x03; 0x10] 0;
    mkCad [ST7735_GMCTRN1]
          [0x03; 0x1d; 0x07; 0x06; 0x2E; 0x2C; 0x29; 0x2D;
           0x2E; 0x2E; 0x37; 0x3F; 0x00; 0x00; 0x02; 0x10] 0;
    mkCad [ST7735_NORON] [] (100 * Millisecond);
    mkCad [ST7735_DISPON] [] (100 * Millisecond) ].

Definition Init (d : Dev) : M unit := sendBatch d (init_table (opts d)).

Definition Powersave (d : Dev) : M unit := sendCommand d [ST7735_SLPIN].

(** [SetBacklight] has no result; the error of [Out] is dropped. *)
Definition SetBacklight (d : Dev) (value : bool) : M unit :=
  match backlight d with
  | None => ret tt
  | Some p =>
      if value then perform_ignore (PinOut p High)
      else perform_ignore (PinOut p Low)
  end.

Definition Halt (d : Dev) : M unit :=
  SetBacklight d false ;;; Powersave d.

(* ================================================================= *)
(** ** Addressing window *)

Definition SetWindow (d : Dev) (x0 y0 x1 y1 : Z) : M unit :=
  let y0 := int_add y0 (OffsetTop (opts d)) in
  let y1 := int_add y1 (OffsetTop (opts d)) in
  let x0 := int_add x0 (OffsetLeft (opts d)) in
  let x1 := int_add x1 (OffsetLeft (opts d)) in
  sendBatch d
    [ mkCad [ST7735_CASET]
            [to_byte (Z.shiftr x0 8); to_byte x0;
             to_byte (Z.shiftr x1 8); to_byte x1] 0;
      mkCad [ST7735_RASET]
            [to_byte (Z.shiftr y0 8); to_byte y0;
             to_byte (Z.shiftr y1 8); to_byte y1] 0;
      mkCad [ST7735_RAMWR] [] 0 ].

(* ================================================================= *)
(** ** Go's [image] and [image/color] packages, as far as the driver
       uses them *)

Module image.

Record Point := mkPoint { X : Z; Y : Z }.

Record Rectangle := mkRect { Min : Point; Max : Point }.

(** [image.ZR], the zero rectangle. *)
Definition ZR : Rectangle := mkRect (mkPoint 0 0) (mkPoint 0 0).

Definition Add (r : Rectangle) (p : Point) : Rectangle :=
  mkRect (mkPoint (int_add (X (Min r)) (X p)) (int_add (Y (Min r)) (Y p)))
         (mkPoint (int_add (X (Max r)) (X p)) (int_add (Y (Max r)) (Y p))).

Definition Sub (r : Rectangle) (p : Point) : Rectangle :=
  mkRect (mkPoint (int_sub (X (Min r)) (X p)) (int_sub (Y (Min r)) (Y p)))
         (mkPoint (int_sub (X (Max r)) (X p)) (int_sub (Y (Max r)) (Y p))).

Definition Empty (r : Rectangle) : bool :=
  (X (Min r) >=? X (Max r)) || (Y (Min r) >=? Y (Max r)).

Definition Intersect (r s : Rectangle) : Rectangle :=
  let minx := if X (Min r) <? X (Min s) then X (Min s) else X (Min r) in
  let miny := if Y (Min r) <? Y (Min s) then Y (Min s) else Y (Min r) in
  let maxx := if X (Max r) >? X (Max s) then X (Max s) else X (Max r) in
  let maxy := if Y (Max r) >? Y (Max s) then Y (Max s) else Y (Max r) in
  let r' := mkRect (mkPoint minx miny) (mkPoint maxx maxy) in
  if Empty r' then ZR else r'.

(** [p.In(r)] *)
Definition In (p : Point) (r : Rectangle) : bool :=
  (X (Min r) <=? X p) && (X p <? X (Max r)) &&
  (Y (Min r) <=? Y p) && (Y p <? Y (Max r)).

Definition Dx (r : Rectangle) : Z := int_sub (X (Max r)) (X (Min r)).
Definition Dy (r : Rectangle) : Z := int_sub (Y (Max r)) (Y (Min r)).

End image.

Module color.

(** [color.RGBA]: four [uint8] channels. *)
Record RGBA := mkRGBA { R : Z; G : Z; B : Z; A : Z }.

Definition wf (k : RGBA) : Prop :=
  is_byte (R k) /\ is_byte (G k) /\ is_byte (B k) /\ is_byte (A k).

(** One channel of the method [RGBA()]: [v := uint32(x); v |= v << 8]. *)
Definition expand16 (x : Z) : Z :=
  let v := to_uint32 x in
  Z.lor v (to_uint32 (Z.shiftl v 8)).

(** [c.RGBA()] returns the four channels widened to 16 bits in a [uint32]. *)
Definition RGBA_method (k : RGBA) : Z * Z * Z * Z :=
  (expand16 (R k), expand16 (G k), expand16 (B k), expand16 (A k)).

End color.

(** [image.RGBA] *)
Record RGBAImage := mkImage {
  Pix : list Z;
  Stride : Z;
  Rect : image.Rectangle
}.

Definition Bounds (p : RGBAImage) : image.Rectangle := Rect p.

Definition PixOffset (p : RGBAImage) (x y : Z) : Z :=
  int_add (int_mul (int_sub y (image.Y (image.Min (Rect p)))) (Stride p))
          (int_mul (int_sub x (image.X (image.Min (Rect p)))) 4).

(** [p.SubImage(r)]; the slice expression [p.Pix[i:]] may panic. *)
Definition SubImage (p : RGBAImage) (r : image.Rectangle) : option RGBAImage :=
  let r := image.Intersect r (Rect p) in
  if image.Empty r then Some (mkImage [] 0 image.ZR)
  else
    let i := PixOffset p (image.X (image.Min r)) (image.Y (image.Min r)) in
    match slice_from (Pix p) i with
    | Some pix => Some (mkImage pix (Stride p) r)
    | None => None
    end.

(** [p.At(x, y)], that is [p.RGBAAt(x, y)]; the slice expression
    [p.Pix[i : i+4 : i+4]] may panic. *)
Definition At (p : RGBAImage) (x y : Z) : option color.RGBA :=
  if negb (image.In (image.mkPoint x y) (Rect p))
  then Some (color.mkRGBA 0 0 0 0)
  else
    let i := PixOffset p x y in
    match slice (Pix p) i (int_add i 4) with
    | Some [s0; s1; s2; s3] => Some (color.mkRGBA s0 s1 s2 s3)
    | _ => None
    end.

(* ================================================================= *)
(** ** Colour packing *)

Definition RGBATo565 (k : color.RGBA) : Z :=
  let '(r, g, b, _) := color.RGBA_method k in
  to_uint16
    (to_uint32
       (to_uint32 (Z.land r 0xF800 + Z.shiftr (Z.land g 0xFC00) 5)
        + Z.shiftr (Z.land b 0xF800) 11)).

(* ================================================================= *)
(** ** Streaming pixels *)

(** The two bytes appended to [buf] for one pixel. *)
Definition pixel_bytes (k : color.RGBA) : list Z :=
  let cd := RGBATo565 k in
  [to_byte (Z.shiftr cd 8); to_byte cd].

(** Inner loop of [DisplayImage]: [for y := ...] at a fixed [x]. *)
Fixpoint column_loop (subImg : RGBAImage) (x : Z) (ys : list Z)
  (buf : list Z) : option (list Z) :=
  match ys with
  | [] => Some buf
  | y :: ys' =>
      match At subImg x y with
      | Some k => column_loop subImg x ys' (buf ++ pixel_bytes k)
      | None => None
      end
  end.

(** Outer loop of [DisplayImage]: [for x := ...]. *)
Fixpoint image_loop (subImg : RGBAImage) (xs ys : list Z)
  (buf : list Z) : option (list Z) :=
  match xs with
  | [] => Some buf
  | x :: xs' =>
      match column_loop subImg x ys buf with
      | Some buf' => image_loop subImg xs' ys buf'
      | None => None
      end
  end.

(** [maxBounds] of [DisplayImage]: the visible panel rectangle. *)
Definition maxBounds (d : Dev) : image.Rectangle :=
  image.mkRect (image.mkPoint 0 0)
               (image.mkPoint (Width (opts d)) (Height (opts d))).

Definition DisplayImage (d : Dev) (x y : Z) (img : RGBAImage) : M unit :=
  let offsetBounds := image.Add (Bounds img) (image.mkPoint x y) in
  let offsetBounds := image.Intersect offsetBounds (maxBounds d) in
  let bounds := image.Sub offsetBounds (image.mkPoint x y) in
  SetWindow d (image.X (image.Min offsetBounds))
              (image.Y (image.Min offsetBounds))
              (int_sub (image.X (image.Max offsetBounds)) 1)
              (int_sub (image.Y (image.Max offsetBounds)) 1) ;;;
  subImg <- lift_option (SubImage img bounds) ;;
  buf <- lift_option
           (image_loop subImg
              (zrange (image.X (image.Min bounds)) (image.X (image.Max bounds)))
              (zrange (image.Y (image.Min bounds)) (image.Y (image.Max bounds)))
              []) ;;
  sendData d buf.

Definition Display (d : Dev) (w : list Z) : M unit :=
  SetWindow d 0 0 (to_byte (Width (opts d) - 1))
                  (to_byte (Height (opts d) - 1)) ;;;
  sendData d w.

(* ================================================================= *)
(** * Specification vocabulary *)

(** What the masks and shifts of [RGBATo565] select from one channel, for
    the 16-bit widening used by the code and for the 8-bit channel. *)
Definition channel_check (x : Z) : bool :=
  (Z.land (color.expand16 x) 0xF800 =? Z.shiftl (x / 8) 11) &&
  (Z.shiftl (Z.land x 0xF8) 8 =? Z.shiftl (x / 8) 11) &&
  (Z.shiftr (Z.land (color.expand16 x) 0xFC00) 5 =? Z.shiftl (x / 4) 5) &&
  (Z.shiftl (Z.land x 0xFC) 3 =? Z.shiftl (x / 4) 5) &&
  (Z.shiftr (Z.land (color.expand16 x) 0xF800) 11 =? x / 8) &&
  (Z.shiftr x 3 =? x / 8).

(** No call of the segment returned an error. *)
Definition fail_free (s : trace) : Prop := Forall (fun ev => snd ev = None) s.

(** A run that starts from history [t0] only appends to it; when it
    returns an error, the failing call is the last one it made and the
    error is the one that call returned; otherwise no call failed. *)
Definition aborts_at_failure {A} (t0 : trace) (res : trace * outcome A) : Prop :=
  exists seg,
    fst res = t0 ++ seg /\
    match snd res with
    | Err e => exists pre k, seg = pre ++ [(k, Some e)] /\ fail_free pre
    | _ => fail_free seg
    end.

Definition disciplined {A} (m : M A) : Prop :=
  forall E t0, aborts_at_failure t0 (m E t0).

Create HintDb discipline.

(** A monadic computation that never calls [time.Sleep]. *)
Definition sleepless {A} (m : M A) : Prop :=
  forall E t, sleeps (calls (fst (m E t))) = sleeps (calls t).

(** A successful transport transaction carrying [w]. *)
Definition tx_ok (k : conn) (w : list Z) : event := (ConnTx k w, None).

(** [cs] cuts the payload [w] into successive chunks of [ChunkSize] bytes,
    the last one carrying the remainder (between 1 and [ChunkSize]
    bytes). *)
Definition chunking (w : list Z) (cs : list (list Z)) : Prop :=
  concat cs = w /\
  Forall (fun ch => 1 <= len ch <= ChunkSize) cs /\
  Forall (fun ch => len ch = ChunkSize) (removelast cs).

(** The calls of one protocol step on a transport that succeeds: the
    opcode in a command phase (select line low), then the parameters, if
    any, in a data phase (select line high). *)
Definition step_calls (p : pin) (k : conn) (s : Z * list Z) : list call :=
  [PinOut p Low; ConnTx k [fst s]] ++
  match snd s with
  | [] => []
  | ps => [PinOut p High; ConnTx k ps]
  end.

(** A transport whose transaction number [n] (counting from 0) fails with
    error [e]; every other call succeeds. *)
Definition env_fail_tx (n : nat) (e : error) : env :=
  fun t k =>
    match k with
    | ConnTx _ _ =>
        if Nat.eqb (length (tx_payloads (calls t))) n then Some e else None
    | _ => None
    end.

(** A backlight pin whose every write fails with error [e]. *)
Definition env_fail_pin (q : pin) (e : error) : env :=
  fun _ k =>
    match k with
    | PinOut p _ => if Nat.eqb p q then Some e else None
    | _ => None
    end.

(** A call that returned no error. *)
Definition ok (k : call) : event := (k, None).

(** Big-endian 16-bit encoding: high byte [v >> 8], low byte [v mod 256]. *)
Definition be16 (v : Z) : list Z := [Z.shiftr v 8; v mod 256].

(** The protocol steps of the initialisation, opcode and parameter bytes,
    with the parameters of the two address-set steps left open. *)
Definition init_steps (caset raset : list Z) : list (Z * list Z) :=
  [ (0x01, []);                                   (* software reset *)
    (0x11, []);                                   (* sleep out *)
    (0xB1, [0x01; 0x2C; 0x2D]);                   (* frame rate control 1 *)
    (0xB2, [0x01; 0x2C; 0x2D]);                   (* frame rate control 2 *)
    (0xB3, [0x01; 0x2C; 0x2D; 0x01; 0x2C; 0x2D]); (* frame rate control 3 *)
    (0xB4, [0x07]);                               (* display inversion control *)
    (0xC0, [0xA2; 0x02; 0x84]);                   (* power control 1 *)
    (0xC1, [0x0A; 0x00]);                         (* power control 2 *)
    (0xC3, [0x8A; 0x2A]);                         (* power control 4 *)
    (0xC4, [0x8A; 0xEE]);                         (* power control 5 *)
    (0xC5, [0x0E]);                               (* VCOM control *)
    (0x21, []);                                   (* inversion selection *)
    (0x36, [0xC8]);                               (* memory access control *)
    (0x3A, [0x05]);                               (* colour mode, 16 bit *)
    (0x2A, caset);                                (* column address set *)
    (0x2B, raset);                                (* row address set *)
    (0xE0, [0x02; 0x1C; 0x07; 0x12; 0x37; 0x32; 0x29; 0x2D;
            0x29; 0x25; 0x2B; 0x39; 0x00; 0x01; 0x03; 0x10]);
    (0xE1, [0x03; 0x1D; 0x07; 0x06; 0x2E; 0x2C; 0x29; 0x2D;
            0x2E; 0x2E; 0x37; 0x3F; 0x00; 0x00; 0x02; 0x10]);
    (0x13, []);                                   (* normal display on *)
    (0x29, []) ].                                 (* display on *)

(** The steps of a table that ask for a settle delay, with the delay. *)
Definition declared_delays (tbl : list commandAndData) : list (list Z * Z) :=
  map (fun cad => (cmd cad, sleep_ cad))
      (filter (fun cad => sleep_ cad >? 0) tbl).

(** No step of the table has both parameter bytes and a delay. *)
Definition no_delay_with_data (tbl : list commandAndData) : bool :=
  forallb (fun cad => (len (data cad) =? 0) || negb (sleep_ cad >? 0)) tbl.

(** On the transport that always succeeds, what a computation appends and
    returns does not depend on the history it starts from. *)
Definition framed {A} (m : M A) : Prop :=
  forall t, m env_ok t = (t ++ fst (m env_ok []), snd (m env_ok [])).

(** Two rectangles share no point. *)
Definition disjoint (r s : image.Rectangle) : Prop :=
  forall px py,
    image.In (image.mkPoint px py) r = true ->
    image.In (image.mkPoint px py) s = true -> False.

(** Byte offset in [Pix] of the pixel at [(px, py)], without wrap-around. *)
Definition pixel_offset (img : RGBAImage) (px py : Z) : Z :=
  (py - image.Y (image.Min (Rect img))) * Stride img
  + (px - image.X (image.Min (Rect img))) * 4.

(** The colour an image stores for the pixel at [(px, py)]. *)
Definition stored_colour (img : RGBAImage) (px py : Z) : color.RGBA :=
  let l := skipn (Z.to_nat (pixel_offset img px py)) (Pix img) in
  color.mkRGBA (nth 0 l 0) (nth 1 l 0) (nth 2 l 0) (nth 3 l 0).

(** An image as Go's [image] package keeps it: the corners, the width and
    the height are [int]s, the stride is not negative, and the four bytes
    of every pixel of the bounds lie inside [Pix], itself a slice ([len]
    is an [int]). *)
Definition wf_image (img : RGBAImage) : Prop :=
  is_int (image.X (image.Min (Rect img))) /\
  is_int (image.Y (image.Min (Rect img))) /\
  is_int (image.X (image.Max (Rect img))) /\
  is_int (image.Y (image.Max (Rect img))) /\
  is_int (image.X (image.Max (Rect img)) - image.X (image.Min (Rect img))) /\
  is_int (image.Y (image.Max (Rect img)) - image.Y (image.Min (Rect img))) /\
  0 <= Stride img /\
  len (Pix img) <= max_int /\
  forall px py,
    image.In (image.mkPoint px py) (Rect img) = true ->
    pixel_offset img px py + 4 <= len (Pix img).

(** The bytes streamed for a region, column by column: outer loop over
    [x], inner loop over [y], two bytes per pixel. *)
Definition column_major (img : RGBAImage) (xlo xhi ylo yhi : Z) : list Z :=
  flat_map
    (fun px =>
       flat_map (fun py => pixel_bytes (stored_colour img px py))
                (zrange ylo yhi))
    (zrange xlo xhi).

(** Handles and images used as concrete inputs. *)
Definition example_dev : Dev :=
  mkDev 0%nat (Some 9%nat) None None DefaultOpts.

(** A 2 x 2 image: red and green on the first row, blue and white on the
    second. *)
Definition example_img : RGBAImage :=
  mkImage [255; 0; 0; 255;   0; 255; 0; 255;
           0; 0; 255; 255;   255; 255; 255; 255]
          8
          (image.mkRect (image.mkPoint 0 0) (image.mkPoint 2 2)).

(** The intersection of the image bounds shifted by [(x, y)] with the
    visible rectangle of the panel, in panel coordinates. *)
Definition clipped (img : RGBAImage) (x y : Z) (o : Opts) : image.Rectangle :=
  image.mkRect
    (image.mkPoint (Z.max (image.X (image.Min (Rect img)) + x) 0)
                   (Z.max (image.Y (image.Min (Rect img)) + y) 0))
    (image.mkPoint (Z.min (image.X (image.Max (Rect img)) + x) (Width o))
                   (Z.min (image.Y (image.Max (Rect img)) + y) (Height o))).

Definition nonempty (r : image.Rectangle) : Prop :=
  image.X (image.Min r) < image.X (image.Max r) /\
  image.Y (image.Min r) < image.Y (image.Max r).

(** [r] lies inside [s]. *)
Definition inside (r s : image.Rectangle) : Prop :=
  image.X (image.Min s) <= image.X (image.Min r) /\
  image.X (image.Max r) <= image.X (image.Max s) /\
  image.Y (image.Min s) <= image.Y (image.Min r) /\
  image.Y (image.Max r) <= image.Y (image.Max s).

(* ================================================================= *)
(** * Further vocabulary *)

Definition is_prefix {A} (a b : list A) : Prop := exists r, b = a ++ r.

(** Whatever the collaborators answer and whatever happened before, the
    calls a computation makes are those of its run on collaborators that
    always succeed, in the same order, up to the point where it stops: all
    of them, with the same result, or an initial segment of them when it
    returns an error. *)
Definition follows_nominal {A} (m : M A) : Prop :=
  forall E t, exists seg,
    fst (m E t) = t ++ seg /\
    ((snd (m E t) = snd (m env_ok []) /\
      calls seg = calls (fst (m env_ok [])))
     \/
     ((exists e, snd (m E t) = Err e) /\
      is_prefix (calls seg) (calls (fst (m env_ok []))))).

(** Two computations that behave alike on every environment and history. *)
Definition same_run {A} (m1 m2 : M A) : Prop :=
  forall E t, m1 E t = m2 E t.

(** Mask identities behind the byte layout of a packed pixel, for one
    channel value. *)
Definition layout_check (x : Z) : bool :=
  (Z.land x 0xF8 =? Z.shiftl (x / 8) 3) &&
  (Z.shiftl (Z.land x 0x1C) 3 =? Z.shiftl ((x / 4) mod 8) 5).

(* ================================================================= *)
(** ** Building an image: [image.NewRGBA] and the method [Set] of [image.RGBA] *)

(** [mul3NonNeg(x, y, z)] of Go's [image] package: the product, or -1 when
    an argument is negative or the product overflows. *)
Definition mul3NonNeg (x y z : Z) : Z :=
  if (x <? 0) || (y <? 0) || (z <? 0) then -1
  else
    let lo := x * y in
    if 2 ^ 64 <=? lo then -1
    else
      let lo := lo * z in
      if 2 ^ 64 <=? lo then -1
      else
        let a := wrap_int lo in
        if (a <? 0) || negb (a mod 2 ^ 64 =? lo) then -1 else a.

(** [image.NewRGBA(r)]; panics ([None]) on huge or negative dimensions. *)
Definition NewRGBA (r : image.Rectangle) : option RGBAImage :=
  let totalLength := mul3NonNeg 4 (image.Dx r) (image.Dy r) in
  if totalLength <? 0 then None
  else Some (mkImage (repeat 0 (Z.to_nat totalLength))
                     (int_mul 4 (image.Dx r)) r).

(** [p.Set(x, y, c)] for a [color.RGBA] value [c]; the slice expression
    [p.Pix[i : i+4 : i+4]] may panic. *)
Definition RGBA_Set (p : RGBAImage) (x y : Z) (k : color.RGBA)
  : option RGBAImage :=
  if negb (image.In (image.mkPoint x y) (Rect p)) then Some p
  else
    let i := PixOffset p x y in
    match slice (Pix p) i (int_add i 4) with
    | Some _ =>
        Some (mkImage
                (firstn (Z.to_nat i) (Pix p)
                 ++ [color.R k; color.G k; color.B k; color.A k]
                 ++ skipn (Z.to_nat (int_add i 4)) (Pix p))
                (Stride p) (Rect p))
    | None => None
    end.

(* ================================================================= *)
(** ** The display command of the command line *)

(** Inner loop of [DisplayCommand.Execute]: [for y := ...] at a fixed [x]. *)
Fixpoint fill_column (img : RGBAImage) (x : Z) (ys : list Z) (k : color.RGBA)
  : option RGBAImage :=
  match ys with
  | [] => Some img
  | y :: ys' =>
      match RGBA_Set img x y k with
      | Some img' => fill_column img' x ys' k
      | None => None
      end
  end.

(** Outer loop of [DisplayCommand.Execute]: [for x := ...]. *)
Fixpoint fill_image (img : RGBAImage) (xs ys : list Z) (k : color.RGBA)
  : option RGBAImage :=
  match xs with
  | [] => Some img
  | x :: xs' =>
      match fill_column img x ys k with
      | Some img' => fill_image img' xs' ys k
      | None => None
      end
  end.

(** The colour [DisplayCommand.Init] derives from the [-color] flag. *)
Definition DisplayCommand_colorRGBA (color_ : Z) : color.RGBA :=
  color.mkRGBA (to_byte (Z.shiftr color_ 16))
               (to_byte (Z.land (Z.shiftr color_ 8) 0xff))
               (to_byte (Z.land color_ 0xff))
               0.

(** What [DisplayCommand.Execute] does with the handle once it has one:
    it builds a [width] x [height] image at the origin, paints every pixel
    with the colour, and displays it at [(offsetLeft, offsetTop)]. *)
Definition DisplayCommand_draw (dev : Dev)
    (offsetLeft offsetTop width height : Z) (colorRGBA : color.RGBA) : M unit :=
  let bounds := image.mkRect (image.mkPoint 0 0) (image.mkPoint width height) in
  img <- lift_option (NewRGBA bounds) ;;
  img <- lift_option
           (fill_image img
              (zrange (image.X (image.Min bounds)) (image.X (image.Max bounds)))
              (zrange (image.Y (image.Min bounds)) (image.Y (image.Max bounds)))
              colorRGBA) ;;
  DisplayImage dev offsetLeft offsetTop img.

(** An image of [w] x [h] pixels at the origin, as [NewRGBA] lays it out. *)
Definition canvas (w h : Z) (img : RGBAImage) : Prop :=
  Rect img = image.mkRect (image.mkPoint 0 0) (image.mkPoint w h) /\
  Stride img = 4 * w /\
  len (Pix img) = 4 * w * h.

(* ================================================================= *)
(** ** Command line: dispatch and flag validation *)

Module cmd.
Import String.
Local Open Scope string_scope.

(** The [Command] interface.  [Init] answers an error or nil; what
    [Execute] returns depends on the arguments [Init] has parsed. *)
Record Command := mkCommand {
  Name : string;
  Init : list string -> option string;
  Execute_ : list string -> option string
}.

(** The loop of [Execute] over the commands. *)
Fixpoint dispatch (commands : list Command) (command : string)
    (rest : list string) : option string :=
  match commands with
  | nil => Some ("unknown command: " ++ command)
  | c :: cs =>
      if command =? Name c then
        match Init c rest with
        | Some err => Some err
        | None => Execute_ c rest
        end
      else dispatch cs command rest
  end.

(** [Execute], on the arguments [flag.Args()] left by [flag.Parse()];
    [flag.Arg(0)] is the empty string when there is none. *)
Definition Execute (commands : list Command) (args : list string)
  : option string :=
  let command := List.hd "" args in
  if command =? "" then Some "Missing command"
  else dispatch commands command (List.tl args).

(** The names of the commands [Execute] lists: [NewInitCommand],
    [NewBacklightOnCommand], [NewBacklightOffCommand],
    [NewDisplayCommand], each named by its flag set. *)
Definition registered_names : list string :=
  "init" :: "backlight-on" :: "backlight-off" :: "display" :: nil.

(** The name of the flag set of [NewPowersaveCommand]. *)
Definition powersave_name : string := "powersave".

(** The errors of [DisplayCommand.Init] once the flags are parsed. *)
Inductive InitError :=
| MissingSpi          (* SPI device must be provided with the -spi flag *)
| MissingDc           (* dc pin must be provided with the -dc flag *)
| ColorOutOfRange (color_ : Z).

(** [DisplayCommand.Init] after [fs.Parse]: the checks on the parsed
    flags, and the colour it stores. *)
Definition DisplayCommand_Init (spi dc : string) (color_ : Z)
  : InitError + color.RGBA :=
  if Nat.eqb (String.length spi) 0 then inl MissingSpi
  else if Nat.eqb (String.length dc) 0 then inl MissingDc
  else if ((color_ <? 0) || (color_ >? 0xffffff))%Z then inl (ColorOutOfRange color_)
  else inr (DisplayCommand_colorRGBA color_).

End cmd.
(* ================================================================= *)
(** * Properties *)

(** ** Machine arithmetic *)

Lemma wrap_int_id (z : Z) : is_int z -> wrap_int z = z.
Proof.
  unfold is_int, min_int, max_int, wrap_int, int_bits.
  change (2 ^ (64 - 1)) with 9223372036854775808.
  change (2 ^ 64) with 18446744073709551616.
  intros H; rewrite Z.mod_small; lia.
Qed.

Lemma wrap_int_range (z : Z) : is_int (wrap_int z).
Proof.
  unfold is_int, min_int, max_int, wrap_int, int_bits.
  change (2 ^ (64 - 1)) with 9223372036854775808.
  change (2 ^ 64) with 18446744073709551616.
  pose proof (Z.mod_pos_bound (z + 9223372036854775808)
                              18446744073709551616 eq_refl).
  lia.
Qed.

Lemma zrange_In (lo hi x : Z) : In x (zrange lo hi) <-> lo <= x < hi.
Proof.
  unfold zrange; rewrite in_map_iff; split.
  - intros (k & <- & Hk); apply in_seq in Hk; lia.
  - intros H; exists (Z.to_nat (x - lo)); split; [lia | apply in_seq; lia].
Qed.

Lemma zrange_length (lo hi : Z) : length (zrange lo hi) = Z.to_nat (hi - lo).
Proof. unfold zrange; now rewrite length_map, length_seq. Qed.

Lemma zrange_nil (lo hi : Z) : hi <= lo -> zrange lo hi = [].
Proof.
  intros H; unfold zrange.
  replace (Z.to_nat (hi - lo)) with 0%nat by lia; reflexivity.
Qed.

(** A boolean property checked on the 256 byte values holds of every byte. *)
Lemma forall_bytes (P : Z -> bool) :
  forallb P (zrange 0 256) = true -> forall x, is_byte x -> P x = true.
Proof.
  intros H x Hx; rewrite forallb_forall in H; apply H, zrange_In, Hx.
Qed.

(** A value shifted left by [k] shares no bit with a [k]-bit value. *)
Lemma land_shiftl_low (u v k : Z) :
  0 <= k -> 0 <= v < 2 ^ k -> Z.land (Z.shiftl u k) v = 0.
Proof.
  intros Hk Hv; apply Z.bits_inj'; intros n Hn.
  rewrite Z.land_spec, Z.bits_0.
  destruct (Z.lt_ge_cases n k) as [Hlt | Hge].
  - now rewrite Z.shiftl_spec_low.
  - assert (Z.testbit v n = false) as ->; [ | apply andb_false_r ].
    destruct (Z.eq_dec v 0) as [-> | Hnz]; [ apply Z.bits_0 | ].
    apply Z.bits_above_log2; [ lia | ].
    assert (Z.log2 v < k) by (apply Z.log2_lt_pow2; lia); lia.
Qed.

Lemma lor_shiftl_low (u v k : Z) :
  0 <= k -> 0 <= v < 2 ^ k -> Z.lor (Z.shiftl u k) v = u * 2 ^ k + v.
Proof.
  intros Hk Hv.
  pose proof (Z.add_lor_land (Z.shiftl u k) v) as H.
  rewrite land_shiftl_low, Z.shiftl_mul_pow2 in H by assumption.
  rewrite Z.shiftl_mul_pow2 by assumption; lia.
Qed.

(** ** Colour packing *)


Lemma channel_facts (x : Z) :
  is_byte x ->
  Z.land (color.expand16 x) 0xF800 = Z.shiftl (x / 8) 11 /\
  Z.shiftl (Z.land x 0xF8) 8 = Z.shiftl (x / 8) 11 /\
  Z.shiftr (Z.land (color.expand16 x) 0xFC00) 5 = Z.shiftl (x / 4) 5 /\
  Z.shiftl (Z.land x 0xFC) 3 = Z.shiftl (x / 4) 5 /\
  Z.shiftr (Z.land (color.expand16 x) 0xF800) 11 = x / 8 /\
  Z.shiftr x 3 = x / 8.
Proof.
  intros Hx.
  assert (channel_check x = true) as H
      by (revert x Hx; apply forall_bytes; vm_compute; reflexivity).
  unfold channel_check in H.
  repeat (apply andb_prop in H; destruct H as [H ?]).
  repeat match goal with E : (_ =? _) = true |- _ => apply Z.eqb_eq in E end.
  repeat split; assumption.
Qed.

(** The packed value as a plain sum of the three fields. *)
Lemma RGBATo565_sum (r g b a : Z) :
  is_byte r -> is_byte g -> is_byte b ->
  RGBATo565 (color.mkRGBA r g b a) = (r / 8) * 2048 + (g / 4) * 32 + b / 8.
Proof.
  intros Hr Hg Hb.
  destruct (channel_facts _ Hr) as (Er & _).
  destruct (channel_facts _ Hg) as (_ & _ & Eg & _).
  destruct (channel_facts _ Hb) as (_ & _ & _ & _ & Eb & _).
  unfold RGBATo565, color.RGBA_method; cbn [color.R color.G color.B color.A].
  rewrite Er, Eg, Eb, !Z.shiftl_mul_pow2 by lia.
  unfold is_byte in *.
  assert (0 <= r / 8 < 32) by (split; [apply Z.div_pos | apply Z.div_lt_upper_bound]; lia).
  assert (0 <= g / 4 < 64) by (split; [apply Z.div_pos | apply Z.div_lt_upper_bound]; lia).
  assert (0 <= b / 8 < 32) by (split; [apply Z.div_pos | apply Z.div_lt_upper_bound]; lia).
  unfold to_uint16, to_uint32.
  change (2 ^ 11) with 2048; change (2 ^ 5) with 32.
  change (2 ^ 32) with 4294967296; change (2 ^ 16) with 65536.
  rewrite (Z.mod_small (_ + _ * 32)) by lia.
  rewrite (Z.mod_small (_ + _ / 8)) by lia.
  rewrite Z.mod_small by lia; reflexivity.
Qed.

(** C3: for 8-bit channels (alpha ignored) the packed colour is
    [((r & 0xF8) << 8) | ((g & 0xFC) << 3) | (b >> 3)], a 16-bit value;
    the function is total and its value does not depend on alpha; black,
    white and the three primaries pack to 0x0000, 0xFFFF, 0xF800, 0x07E0
    and 0x001F. *)
Theorem RGBATo565_layout :
  (forall r g b a,
      is_byte r -> is_byte g -> is_byte b ->
      RGBATo565 (color.mkRGBA r g b a)
      = Z.lor (Z.lor (Z.shiftl (Z.land r 0xF8) 8) (Z.shiftl (Z.land g 0xFC) 3))
              (Z.shiftr b 3)
      /\ 0 <= RGBATo565 (color.mkRGBA r g b a) < 2 ^ 16
      /\ forall a', RGBATo565 (color.mkRGBA r g b a')
                    = RGBATo565 (color.mkRGBA r g b a))
  /\ (forall a, RGBATo565 (color.mkRGBA 0 0 0 a) = 0x0000)
  /\ (forall a, RGBATo565 (color.mkRGBA 255 255 255 a) = 0xFFFF)
  /\ (forall a, RGBATo565 (color.mkRGBA 255 0 0 a) = 0xF800)
  /\ (forall a, RGBATo565 (color.mkRGBA 0 255 0 a) = 0x07E0)
  /\ (forall a, RGBATo565 (color.mkRGBA 0 0 255 a) = 0x001F).
Proof.
  split; [ | repeat split; intros; rewrite RGBATo565_sum by (unfold is_byte; lia);
             reflexivity ].
  intros r g b a Hr Hg Hb.
  assert (0 <= r / 8 < 32 /\ 0 <= g / 4 < 64 /\ 0 <= b / 8 < 32) as (Br & Bg & Bb).
  { unfold is_byte in *.
    repeat split; try (apply Z.div_pos; lia); apply Z.div_lt_upper_bound; lia. }
  split; [ | split ].
  - rewrite RGBATo565_sum by assumption.
    destruct (channel_facts _ Hr) as (_ & -> & _).
    destruct (channel_facts _ Hg) as (_ & _ & _ & -> & _).
    destruct (channel_facts _ Hb) as (_ & _ & _ & _ & _ & ->).
    rewrite (Z.shiftl_mul_pow2 (g / 4)) by lia.
    change (2 ^ 5) with 32.
    rewrite (@lor_shiftl_low (r / 8) (g / 4 * 32) 11)
      by (try change (2 ^ 11) with 2048; lia).
    change (2 ^ 11) with 2048.
    replace (r / 8 * 2048 + g / 4 * 32) with (Z.shiftl (r / 8 * 64 + g / 4) 5)
      by (rewrite Z.shiftl_mul_pow2 by lia; change (2 ^ 5) with 32; lia).
    rewrite lor_shiftl_low by (try change (2 ^ 5) with 32; lia).
    rewrite Z.shiftl_mul_pow2 by lia; reflexivity.
  - rewrite RGBATo565_sum by assumption.
    change (2 ^ 16) with 65536; lia.
  - intros a'; now rewrite !RGBATo565_sum.
Qed.

Lemma RGBATo565_layout_witness :
  RGBATo565 (color.mkRGBA 18 52 86 255)
  = Z.lor (Z.lor (Z.shiftl (Z.land 18 0xF8) 8) (Z.shiftl (Z.land 52 0xFC) 3))
          (Z.shiftr 86 3).
Proof.
  refine (proj1 (proj1 RGBATo565_layout 18 52 86 255 _ _ _));
    unfold is_byte; lia.
Defined.

(* ================================================================= *)
(** ** Abort discipline of the send primitives *)


Lemma disciplined_ret {A} (a : A) : disciplined (ret a).
Proof. intros E t0; exists []; simpl; rewrite app_nil_r; split; [easy | constructor]. Qed.

Lemma disciplined_panic {A} : disciplined (@panic A).
Proof. intros E t0; exists []; simpl; rewrite app_nil_r; split; [easy | constructor]. Qed.

Lemma disciplined_perform (k : call) : disciplined (perform k).
Proof.
  intros E t0; exists [(k, E t0 k)]; unfold perform; simpl; split; [easy | ].
  destruct (E t0 k) as [e | ] eqn:He.
  - exists [], k; split; [reflexivity | constructor].
  - repeat constructor.
Qed.

Lemma disciplined_sleep (n : Z) : disciplined (sleep n).
Proof. intros E t0; exists [(TimeSleep n, None)]; simpl; split; [easy | repeat constructor]. Qed.

Lemma disciplined_bind {A B} (m : M A) (f : A -> M B) :
  disciplined m -> (forall a, disciplined (f a)) -> disciplined (bind m f).
Proof.
  intros Hm Hf E t0; unfold bind.
  destruct (Hm E t0) as (seg & Ht & Hr).
  destruct (m E t0) as [t1 [a | e | ]]; simpl in *; subst t1.
  - destruct (Hf a E (t0 ++ seg)) as (seg' & Ht' & Hr').
    exists (seg ++ seg'); rewrite app_assoc; split; [assumption | ].
    destruct (snd (f a E (t0 ++ seg))).
    + apply Forall_app; split; assumption.
    + destruct Hr' as (pre & k & -> & Hpre).
      exists (seg ++ pre), k; rewrite app_assoc; split; [reflexivity | ].
      apply Forall_app; split; assumption.
    + apply Forall_app; split; assumption.
  - exists seg; split; [reflexivity | assumption].
  - exists seg; split; [reflexivity | assumption].
Qed.

Lemma disciplined_lift_option {A} (o : option A) : disciplined (lift_option o).
Proof. destruct o; [apply disciplined_ret | apply disciplined_panic]. Qed.

Lemma disciplined_pin_out (p : option pin) (l : Level) : disciplined (pin_out p l).
Proof. destruct p; [apply disciplined_perform | apply disciplined_panic]. Qed.

#[local] Hint Resolve disciplined_ret disciplined_panic disciplined_perform
  disciplined_sleep disciplined_bind disciplined_lift_option
  disciplined_pin_out : discipline.

Lemma disciplined_sendCommand (d : Dev) (w : list Z) : disciplined (sendCommand d w).
Proof. unfold sendCommand; auto with discipline. Qed.

Lemma disciplined_sendData_loop (fuel : nat) (d : Dev) (w : list Z) (offset : Z) :
  disciplined (sendData_loop fuel d w offset).
Proof.
  revert offset; induction fuel as [ | fuel IH]; intros offset; simpl.
  - auto with discipline.
  - destruct (offset <? len w); auto 6 with discipline.
Qed.

Lemma disciplined_sendData (d : Dev) (w : list Z) : disciplined (sendData d w).
Proof.
  unfold sendData; apply disciplined_bind; intros;
    [apply disciplined_pin_out | apply disciplined_sendData_loop].
Qed.

#[local] Hint Resolve disciplined_sendCommand disciplined_sendData : discipline.

Lemma disciplined_sendBatch (d : Dev) (commands : list commandAndData) :
  disciplined (sendBatch d commands).
Proof.
  induction commands as [ | cad rest IH]; simpl; [auto with discipline | ].
  apply disciplined_bind; [auto with discipline | intros _].
  destruct (len (data cad) =? 0); [assumption | ].
  apply disciplined_bind; [auto with discipline | intros _].
  apply disciplined_bind; [ | intros _; assumption].
  destruct (sleep_ cad >? 0); auto with discipline.
Qed.

(** In a segment of the shape left by a disciplined run, a failed call
    has nothing after it. *)
Lemma failure_is_last {A} (t0 : trace) (res : trace * outcome A) :
  aborts_at_failure t0 res ->
  exists seg, fst res = t0 ++ seg /\
    forall pre k e post,
      seg = pre ++ (k, Some e) :: post -> post = [] /\ snd res = Err e.
Proof.
  intros (seg & Ht & Hr); exists seg; split; [assumption | ].
  intros pre k e post Hseg.
  assert (forall s : trace, fail_free s -> ~ List.In (k, Some e) s) as Hff.
  { intros s Hs Hin; unfold fail_free in Hs; rewrite Forall_forall in Hs.
    specialize (Hs _ Hin); discriminate. }
  destruct (snd res) as [a | e' | ].
  - exfalso; apply (Hff seg Hr); subst seg; apply in_elt.
  - destruct Hr as (pre' & k' & Hseg' & Hpre').
    rewrite Hseg in Hseg'.
    destruct post as [ | ev post] using rev_ind.
    + apply app_inj_tail in Hseg' as [_ Heq]; inversion Heq; auto.
    + exfalso; clear IHpost.
      rewrite app_comm_cons, app_assoc in Hseg'.
      apply app_inj_tail in Hseg' as [Heq _].
      apply (Hff pre' Hpre'); rewrite <- Heq; apply in_elt.
  - exfalso; apply (Hff seg Hr); subst seg; apply in_elt.
Qed.

(** C8: in [sendBatch] (hence in [Init], which runs its table through
    it) and in [sendData], whatever the transport and the pins answer and
    whatever happened before, a call that returns an error is the last
    call made: no later transaction is issued, nothing is retried, and the
    method returns that very error. *)
Theorem abort_at_first_failure (d : Dev) (E : env) (t0 : trace) :
  (forall commands, exists seg,
      fst (sendBatch d commands E t0) = t0 ++ seg /\
      forall pre k e post,
        seg = pre ++ (k, Some e) :: post ->
        post = [] /\ snd (sendBatch d commands E t0) = Err e)
  /\ (forall w, exists seg,
      fst (sendData d w E t0) = t0 ++ seg /\
      forall pre k e post,
        seg = pre ++ (k, Some e) :: post ->
        post = [] /\ snd (sendData d w E t0) = Err e)
  /\ (exists seg,
      fst (Init d E t0) = t0 ++ seg /\
      forall pre k e post,
        seg = pre ++ (k, Some e) :: post ->
        post = [] /\ snd (Init d E t0) = Err e).
Proof.
  repeat split; intros; apply failure_is_last.
  - apply disciplined_sendBatch.
  - apply disciplined_sendData.
  - apply disciplined_sendBatch.
Qed.

Lemma abort_at_first_failure_witness :
  snd (Init example_dev (env_fail_tx 2 7%nat) []) = Err 7%nat.
Proof.
  destruct (proj2 (proj2 (abort_at_first_failure example_dev
                            (env_fail_tx 2 7%nat) [])))
    as (seg & Hfst & Hlast).
  cbn [app] in Hfst; subst seg.
  refine (proj2 (Hlast [ok (PinOut 9%nat Low); ok (ConnTx 0%nat [ST7735_SWRESET]);
                        ok (PinOut 9%nat Low); ok (ConnTx 0%nat [ST7735_SLPOUT]);
                        ok (PinOut 9%nat Low)]
                       (ConnTx 0%nat [ST7735_FRMCTR1]) 7%nat [] _)).
  vm_compute; reflexivity.
Defined.

(* ================================================================= *)
(** ** Runs on a transport that succeeds *)

Lemma bind_ret {A B} (a : A) (f : A -> M B) (E : env) (t : trace) :
  bind (ret a) f E t = f a E t.
Proof. reflexivity. Qed.

Lemma bind_perform_ok {B} (k : call) (f : unit -> M B) (t : trace) :
  bind (perform k) f env_ok t = f tt env_ok (t ++ [(k, None)]).
Proof. reflexivity. Qed.

Lemma min_int_neg : min_int < 0.
Proof. reflexivity. Qed.

Lemma max_int_big : 2 ^ 32 < max_int.
Proof. reflexivity. Qed.

Lemma chunks_of_nil (cs : list (list Z)) :
  concat cs = [] -> Forall (fun ch => 1 <= len ch <= ChunkSize) cs -> cs = [].
Proof.
  destruct cs as [ | ch cs]; [reflexivity | ]; simpl; intros Hc Hf.
  apply app_eq_nil in Hc as [-> _]; inversion Hf as [ | ? ? Hch _]; subst.
  unfold len in Hch; simpl in Hch; lia.
Qed.

Lemma wrap_int_cases (z : Z) :
  0 <= z -> wrap_int z = z \/ wrap_int z <= z - 2 ^ 64.
Proof.
  intros Hz; unfold wrap_int, int_bits.
  change (2 ^ (64 - 1)) with 9223372036854775808.
  change (2 ^ 64) with 18446744073709551616.
  rewrite Z.mod_eq by lia.
  assert (0 <= (z + 9223372036854775808) / 18446744073709551616) as Hq
      by (apply Z.div_pos; lia).
  lia.
Qed.

(** The fuel [sendData] gives its loop is never exhausted: whatever the
    collaborators answer, more fuel changes nothing.  (An offset that
    wrapped around is negative and makes the next slice expression panic,
    which takes one more iteration.) *)
Lemma sendData_loop_fuel (d : Dev) (w : list Z) (extra : nat) :
  forall (fuel : nat) (offset : Z) (E : env) (t : trace),
    (0 <= offset -> len w - offset <= (Z.of_nat fuel - 1) * ChunkSize) ->
    (offset < len w -> (1 <= fuel)%nat) ->
    sendData_loop (fuel + extra) d w offset E t
    = sendData_loop fuel d w offset E t.
Proof.
  unfold ChunkSize.
  induction fuel as [ | fuel IH]; intros offset E t Hlen Hpos.
  - assert (len w <= offset) as Hge by lia.
    destruct extra as [ | extra]; [reflexivity | ].
    cbn [Nat.add sendData_loop].
    apply Z.ltb_ge in Hge; rewrite Hge; reflexivity.
  - cbn [Nat.add sendData_loop].
    destruct (offset <? len w) eqn:Hlt; [ | reflexivity].
    apply Z.ltb_lt in Hlt.
    destruct (slice w offset
                (if int_add offset ChunkSize >? len w then len w
                 else int_add offset ChunkSize)) as [chunk | ] eqn:Hs;
      [ | reflexivity].
    cbn [lift_option]; rewrite !bind_ret.
    unfold bind, perform; destruct (E t (ConnTx (c d) chunk)); [reflexivity | ].
    assert (0 <= offset) as Hoff.
    { unfold slice in Hs.
      destruct (0 <=? offset) eqn:H0; [now apply Z.leb_le in H0 | discriminate]. }
    apply IH.
    + intros Hnext; unfold int_add, ChunkSize in *.
      destruct (wrap_int_cases (offset + 4096) ltac:(lia)) as [Heq | Hlow].
      * rewrite Heq in *; specialize (Hlen Hoff); lia.
      * exfalso; unfold slice in Hs.
        set (wv := wrap_int (offset + 4096)) in *.
        destruct (wv >? len w) eqn:Hgt; [apply Z.gtb_lt in Hgt; lia | ].
        replace (offset <=? wv) with false in Hs
          by (symmetry; apply Z.leb_gt; lia).
        rewrite andb_false_r in Hs; discriminate.
    + intros _; specialize (Hlen Hoff); lia.
Qed.

(** [sendData] with any larger bound on its loop is [sendData]. *)
Corollary sendData_fuel (d : Dev) (w : list Z) (extra : nat) (E : env) (t : trace) :
  (pin_out (dc d) High ;;; sendData_loop (S (length w) + extra) d w 0) E t
  = sendData d w E t.
Proof.
  unfold sendData, bind.
  destruct (pin_out (dc d) High E t) as [t' [[] | e | ]]; try reflexivity.
  apply sendData_loop_fuel; unfold len, ChunkSize; lia.
Qed.

(** The loop of [sendData], started at [offset] with enough fuel, sends
    the rest of the payload in chunks and returns. *)
Lemma sendData_loop_ok (fuel : nat) (d : Dev) (w : list Z) :
  len w + ChunkSize <= max_int ->
  forall (offset : Z) (t : trace),
    0 <= offset ->
    len w - offset <= Z.of_nat fuel * ChunkSize ->
    exists cs,
      sendData_loop fuel d w offset env_ok t
      = (t ++ map (tx_ok (c d)) cs, Ok tt) /\
      chunking (skipn (Z.to_nat offset) w) cs.
Proof.
  intros Hmax; pose proof min_int_neg as Hmin.
  unfold ChunkSize in *.
  induction fuel as [ | fuel IH]; intros offset t Hoff Hfuel.
  - exists []; simpl; rewrite app_nil_r; split; [reflexivity | ].
    repeat split; try constructor.
    simpl; symmetry; apply skipn_all2; unfold len in *; lia.
  - cbn [sendData_loop].
    destruct (offset <? len w) eqn:Hlt.
    2:{ apply Z.ltb_ge in Hlt.
        exists []; simpl; rewrite app_nil_r; split; [reflexivity | ].
        repeat split; try constructor.
        simpl; symmetry; apply skipn_all2; unfold len in *; lia. }
    apply Z.ltb_lt in Hlt.
    unfold int_add, ChunkSize.
    rewrite wrap_int_id by (unfold is_int; lia).
    set (l := skipn (Z.to_nat offset) w).
    assert (length l = (length w - Z.to_nat offset)%nat) as Hl
        by (unfold l; apply length_skipn).
    destruct (IH (offset + 4096) (t ++ [tx_ok (c d)
               (firstn (Z.to_nat ((if offset + 4096 >? len w then len w
                                   else offset + 4096) - offset)) l)]))
      as (cs' & Hrun & Hconcat & Hall & Hinit); [lia | lia | ].
    replace (skipn (Z.to_nat (offset + 4096)) w) with (skipn 4096 l) in Hconcat
      by (unfold l; rewrite skipn_skipn; f_equal; lia).
    exists (firstn (Z.to_nat ((if offset + 4096 >? len w then len w
                               else offset + 4096) - offset)) l :: cs').
    split.
    + unfold slice.
      replace ((0 <=? offset) &&
               (offset <=? (if offset + 4096 >? len w then len w else offset + 4096)) &&
               ((if offset + 4096 >? len w then len w else offset + 4096) <=? len w))
        with true
        by (symmetry; destruct (offset + 4096 >? len w) eqn:Hc;
            [ | rewrite Z.gtb_ltb in Hc; apply Z.ltb_ge in Hc];
            rewrite !andb_true_iff, !Z.leb_le; lia).
      cbn [lift_option]; rewrite bind_ret, bind_perform_ok.
      etransitivity; [exact Hrun | rewrite <- app_assoc; reflexivity].
    + destruct (offset + 4096 >? len w) eqn:Hc.
      * (* the remainder *)
        apply Z.gtb_lt in Hc.
        assert (skipn 4096 l = []) as Hnil
            by (apply skipn_all2; unfold len in *; lia).
        rewrite Hnil in Hconcat.
        pose proof (chunks_of_nil _ Hconcat Hall) as ->.
        replace (Z.to_nat (len w - offset)) with (length l)
          by (unfold len in *; lia).
        rewrite firstn_all.
        repeat split; simpl; try constructor; try constructor;
          try apply app_nil_r; unfold len, ChunkSize in *; lia.
      * (* a full chunk *)
        rewrite Z.gtb_ltb in Hc; apply Z.ltb_ge in Hc.
        replace (Z.to_nat (offset + 4096 - offset)) with 4096%nat by lia.
        assert (len (firstn 4096 l) = 4096) as Hfull
            by (unfold len in *; rewrite firstn_length_le; lia).
        repeat split.
        -- cbn [concat]; rewrite Hconcat; apply firstn_skipn.
        -- constructor; [unfold ChunkSize; lia | assumption].
        -- destruct cs' as [ | ch cs']; [constructor | ].
           change (removelast (firstn 4096 l :: ch :: cs'))
             with (firstn 4096 l :: removelast (ch :: cs')).
           constructor; assumption.
Qed.

(** [sendData] on a transport that succeeds: one write of the select
    line, then the chunks. *)
Lemma sendData_ok (d : Dev) (p : pin) (w : list Z) (t : trace) :
  dc d = Some p ->
  len w + ChunkSize <= max_int ->
  exists cs,
    sendData d w env_ok t
    = (t ++ (PinOut p High, None) :: map (tx_ok (c d)) cs, Ok tt) /\
    chunking w cs.
Proof.
  intros Hdc Hmax; unfold sendData; rewrite Hdc; cbn [pin_out].
  rewrite bind_perform_ok.
  destruct (@sendData_loop_ok (S (length w)) d w Hmax 0
              (t ++ [(PinOut p High, None)])) as (cs & Hrun & Hch);
    [lia | unfold ChunkSize, len; lia | ].
  exists cs; split; [ | exact Hch].
  rewrite Hrun, <- app_assoc; reflexivity.
Qed.

Lemma tx_payloads_tx_ok (k : conn) (cs : list (list Z)) :
  tx_payloads (calls (map (tx_ok k) cs)) = cs.
Proof. induction cs as [ | ch cs IH]; simpl; [ | rewrite IH]; reflexivity. Qed.

Lemma last_in {A} (l : list A) (x : A) : l <> [] -> List.In (last l x) l.
Proof.
  induction l as [ | a [ | b l] IH]; intros H; [easy | now left | ].
  right; apply IH; discriminate.
Qed.

(** C6: on a transport that succeeds, [sendData] raises the select line
    and then performs one transaction per chunk: the chunks, concatenated,
    are the payload; every chunk but the last has exactly [ChunkSize] =
    4096 bytes and the last carries the remainder (1 to 4096 bytes); a
    payload of 4097 bytes gives two transactions, of 4096 bytes and of one
    byte. *)
Theorem sendData_chunked (k : conn) (p : pin) (rst bl : option pin) (o : Opts)
    (w : list Z) :
  len w + ChunkSize <= max_int ->
  exists cs,
    run (sendData (mkDev k (Some p) rst bl o) w) env_ok
    = ((PinOut p High, None) :: map (tx_ok k) cs, Ok tt)
    /\ tx_payloads (calls (fst (run (sendData (mkDev k (Some p) rst bl o) w)
                                    env_ok))) = cs
    /\ concat cs = w
    /\ Forall (fun ch => len ch = ChunkSize) (removelast cs)
    /\ (cs <> [] -> 1 <= len (last cs []) <= ChunkSize)
    /\ (len w = ChunkSize + 1 ->
        exists c1 c2, cs = [c1; c2] /\ len c1 = ChunkSize /\ len c2 = 1).
Proof.
  intros Hmax.
  destruct (@sendData_ok (mkDev k (Some p) rst bl o) p w [] eq_refl Hmax)
    as (cs & Hrun & Hcat & Hall & Hinit).
  exists cs; unfold run; rewrite Hrun; cbn [app fst c].
  split; [reflexivity | split; [ | split; [assumption | split; [assumption | split]]]].
  - apply (tx_payloads_tx_ok k cs).
  - intros Hne; rewrite Forall_forall in Hall.
    apply Hall, last_in, Hne.
  - intros Hlen; rewrite <- Hcat in Hlen; unfold ChunkSize, len in *.
    destruct cs as [ | c1 [ | c2 [ | c3 cs]]].
    + simpl in Hlen; lia.
    + inversion Hall as [ | ? ? H1 _]; subst.
      simpl in Hlen; rewrite app_nil_r in Hlen; lia.
    + inversion Hinit as [ | ? ? H1 _]; subst.
      exists c1, c2; split; [reflexivity | split; [assumption | ]].
      simpl in Hlen; rewrite app_nil_r, length_app in Hlen; lia.
    + exfalso.
      change (removelast (c1 :: c2 :: c3 :: cs))
        with (c1 :: c2 :: removelast (c3 :: cs)) in Hinit.
      inversion Hinit as [ | ? ? H1 Hinit']; subst.
      inversion Hinit' as [ | ? ? H2 _]; subst.
      cbn [concat] in Hlen; rewrite !length_app in Hlen; lia.
Qed.

Lemma sendData_chunked_witness :
  exists cs,
    run (sendData (mkDev 0%nat (Some 9%nat) None None DefaultOpts)
                  (repeat 0xAB 4097)) env_ok
    = ((PinOut 9%nat High, None) :: map (tx_ok 0%nat) cs, Ok tt)
    /\ exists c1 c2, cs = [c1; c2] /\ len c1 = ChunkSize /\ len c2 = 1.
Proof.
  destruct (@sendData_chunked 0%nat 9%nat None None DefaultOpts
              (repeat 0xAB 4097)) as (cs & Hrun & _ & _ & _ & _ & H4097).
  - vm_compute; discriminate.
  - exists cs; split; [exact Hrun | apply H4097; vm_compute; reflexivity].
Defined.

(* ================================================================= *)
(** ** Settle delays *)

Lemma sleeps_app (a b : list call) : sleeps (a ++ b) = sleeps a ++ sleeps b.
Proof.
  induction a as [ | k a IH]; simpl; [reflexivity | ].
  destruct k; simpl; rewrite IH; reflexivity.
Qed.

Lemma sleepless_ret {A} (a : A) : sleepless (ret a).
Proof. intros E t; reflexivity. Qed.

Lemma sleepless_panic {A} : sleepless (@panic A).
Proof. intros E t; reflexivity. Qed.

Lemma sleepless_perform (k : call) : is_sleep k = false -> sleepless (perform k).
Proof.
  intros Hk E t; unfold perform, calls; cbn [fst].
  rewrite map_app, sleeps_app; destruct k; try discriminate;
    simpl; apply app_nil_r.
Qed.

Lemma sleepless_bind {A B} (m : M A) (f : A -> M B) :
  sleepless m -> (forall a, sleepless (f a)) -> sleepless (bind m f).
Proof.
  intros Hm Hf E t; unfold bind; specialize (Hm E t).
  destruct (m E t) as [t1 [a | e | ]]; cbn [fst] in *; try assumption.
  rewrite Hf; assumption.
Qed.

Lemma sleepless_pin_out (p : option pin) (l : Level) : sleepless (pin_out p l).
Proof. destruct p; [now apply sleepless_perform | apply sleepless_panic]. Qed.

Lemma sleepless_sendCommand (d : Dev) (w : list Z) : sleepless (sendCommand d w).
Proof.
  unfold sendCommand; apply sleepless_bind; intros;
    [apply sleepless_pin_out | now apply sleepless_perform].
Qed.

Lemma sleepless_sendData (d : Dev) (w : list Z) : sleepless (sendData d w).
Proof.
  unfold sendData; apply sleepless_bind; [apply sleepless_pin_out | intros _].
  generalize (S (length w)) 0; intros fuel.
  induction fuel as [ | fuel IH]; intros offset; cbn [sendData_loop].
  - apply sleepless_ret.
  - destruct (offset <? len w); [ | apply sleepless_ret].
    apply sleepless_bind; intros.
    + destruct (slice _ _ _); [apply sleepless_ret | apply sleepless_panic].
    + apply sleepless_bind; intros; [now apply sleepless_perform | apply IH].
Qed.

(** [sendBatch] reaches [time.Sleep] only past the [continue] taken for a
    step without parameter bytes: a table whose delays all sit on such
    steps is sent without any sleep. *)
Lemma sleepless_sendBatch (d : Dev) (tbl : list commandAndData) :
  no_delay_with_data tbl = true -> sleepless (sendBatch d tbl).
Proof.
  unfold no_delay_with_data.
  induction tbl as [ | cad rest IH]; cbn [sendBatch forallb]; intros H.
  - apply sleepless_ret.
  - apply andb_prop in H as [Hcad Hrest].
    apply sleepless_bind; [apply sleepless_sendCommand | intros _].
    destruct (len (data cad) =? 0); [now apply IH | ].
    apply sleepless_bind; [apply sleepless_sendData | intros _].
    simpl in Hcad; apply negb_true_iff in Hcad; rewrite Hcad.
    apply sleepless_bind; intros; [apply sleepless_ret | now apply IH].
Qed.

(** C1 (the code diverges from the claim): the table of [Init] declares
    settle delays of 150ms after software reset, 500ms after sleep-out and
    100ms after normal-display-on and after display-on, but [Init] never
    calls [time.Sleep], on any handle and whatever the collaborators
    answer: the four steps carry no parameter bytes and [sendBatch] skips
    to the next step before it reaches the sleep. *)
Theorem Init_never_sleeps (d : Dev) (E : env) :
  declared_delays (init_table (opts d))
  = [ ([ST7735_SWRESET], 150 * Millisecond);
      ([ST7735_SLPOUT], 500 * Millisecond);
      ([ST7735_NORON], 100 * Millisecond);
      ([ST7735_DISPON], 100 * Millisecond) ]
  /\ sleeps (calls (fst (run (Init d) E))) = [].
Proof.
  split; [reflexivity | ].
  unfold run, Init; rewrite sleepless_sendBatch; reflexivity.
Qed.

(* ================================================================= *)
(** ** Initialisation sequence *)

(** C7: for every panel geometry, on a transport that succeeds, [Init]
    emits the fixed steps of [init_steps] in their order (software reset,
    sleep-out, three frame-rate controls, inversion control, five power
    controls, inversion selection, memory access control, colour mode,
    column address set, row address set, two 16-byte gamma tables, normal
    display on, display on), each as its opcode in a command phase followed
    by its parameters in a data phase; the geometry enters the emitted
    bytes only through the parameters of the two address-set steps: of the
    35 transactions, two geometries give the same first 26 and the same
    last 6, transaction 27 is the row-address-set opcode, and transactions
    26 and 28 carry the address parameters. *)
Theorem Init_fixed_sequence (k : conn) (p : pin) (rst bl : option pin) (o : Opts) :
  run (Init (mkDev k (Some p) rst bl o)) env_ok
  = (map ok
       (flat_map (step_calls p k)
          (init_steps
             [0; OffsetLeft o; 0; (Width o + OffsetLeft o - 1) mod 256]
             [0; OffsetTop o; 0; (Height o + OffsetTop o - 1) mod 256])),
     Ok tt)
  /\ (forall caset raset,
         map fst (init_steps caset raset)
         = [ ST7735_SWRESET; ST7735_SLPOUT;
             ST7735_FRMCTR1; ST7735_FRMCTR2; ST7735_FRMCTR3;
             ST7735_INVCTR;
             ST7735_PWCTR1; ST7735_PWCTR2; ST7735_PWCTR4; ST7735_PWCTR5;
             ST7735_VMCTR1;
             ST7735_INVON;
             ST7735_MADCTL; ST7735_COLMOD;
             ST7735_CASET; ST7735_RASET;
             ST7735_GMCTRP1; ST7735_GMCTRN1;
             ST7735_NORON; ST7735_DISPON ]
         /\ map (fun s => (fst s, len (snd s)))
                (filter (fun s => (fst s =? ST7735_GMCTRP1)
                                  || (fst s =? ST7735_GMCTRN1))
                        (init_steps caset raset))
            = [(ST7735_GMCTRP1, 16); (ST7735_GMCTRN1, 16)])
  /\ (forall o',
         firstn 26 (tx_payloads (calls (fst (run (Init (mkDev k (Some p) rst bl o))
                                                 env_ok))))
         = firstn 26 (tx_payloads (calls (fst (run (Init (mkDev k (Some p) rst bl o'))
                                                   env_ok))))
         /\ nth 26 (tx_payloads (calls (fst (run (Init (mkDev k (Some p) rst bl o))
                                                 env_ok)))) []
            = [0; OffsetLeft o; 0; (Width o + OffsetLeft o - 1) mod 256]
         /\ nth 27 (tx_payloads (calls (fst (run (Init (mkDev k (Some p) rst bl o))
                                                 env_ok)))) []
            = [ST7735_RASET]
         /\ nth 28 (tx_payloads (calls (fst (run (Init (mkDev k (Some p) rst bl o))
                                                 env_ok)))) []
            = [0; OffsetTop o; 0; (Height o + OffsetTop o - 1) mod 256]
         /\ skipn 29 (tx_payloads (calls (fst (run (Init (mkDev k (Some p) rst bl o))
                                                   env_ok))))
            = skipn 29 (tx_payloads (calls (fst (run (Init (mkDev k (Some p) rst bl o'))
                                                     env_ok))))).
Proof.
  split; [ | split].
  - rewrite <- !(Zminus_mod_idemp_l (_ + _) 1 256).
    reflexivity.
  - intros caset raset; split; reflexivity.
  - intros o'.
    refine (conj _ (conj _ (conj _ (conj _ _)))).
    + vm_compute; reflexivity.
    + rewrite <- (Zminus_mod_idemp_l (Width o + OffsetLeft o) 1 256).
      reflexivity.
    + vm_compute; reflexivity.
    + rewrite <- (Zminus_mod_idemp_l (Height o + OffsetTop o) 1 256).
      reflexivity.
    + vm_compute; reflexivity.
Qed.

(* ================================================================= *)
(** ** History independence on a transport that succeeds *)

Lemma framed_ret {A} (a : A) : framed (ret a).
Proof. intros t; simpl; now rewrite app_nil_r. Qed.

Lemma framed_panic {A} : framed (@panic A).
Proof. intros t; simpl; now rewrite app_nil_r. Qed.

Lemma framed_perform (k : call) : framed (perform k).
Proof. intros t; reflexivity. Qed.

Lemma framed_sleep (n : Z) : framed (sleep n).
Proof. intros t; reflexivity. Qed.

Lemma framed_lift_option {A} (o : option A) : framed (lift_option o).
Proof. destruct o; [apply framed_ret | apply framed_panic]. Qed.

Lemma framed_pin_out (p : option pin) (l : Level) : framed (pin_out p l).
Proof. destruct p; [apply framed_perform | apply framed_panic]. Qed.

Lemma framed_bind {A B} (m : M A) (f : A -> M B) :
  framed m -> (forall a, framed (f a)) -> framed (bind m f).
Proof.
  intros Hm Hf t; unfold bind; rewrite (Hm t).
  destruct (m env_ok []) as [s [a | e | ]]; cbn [fst snd]; try reflexivity.
  rewrite (Hf a (t ++ s)), (Hf a s); cbn [fst snd].
  rewrite app_assoc; reflexivity.
Qed.

Lemma framed_sendCommand (d : Dev) (w : list Z) : framed (sendCommand d w).
Proof.
  unfold sendCommand; apply framed_bind; intros;
    [apply framed_pin_out | apply framed_perform].
Qed.

Lemma framed_sendData (d : Dev) (w : list Z) : framed (sendData d w).
Proof.
  unfold sendData; apply framed_bind; [apply framed_pin_out | intros _].
  generalize (S (length w)) 0; intros fuel.
  induction fuel as [ | fuel IH]; intros offset; cbn [sendData_loop].
  - apply framed_ret.
  - destruct (offset <? len w); [ | apply framed_ret].
    apply framed_bind; intros; [apply framed_lift_option | ].
    apply framed_bind; intros; [apply framed_perform | apply IH].
Qed.

Lemma framed_sendBatch (d : Dev) (tbl : list commandAndData) :
  framed (sendBatch d tbl).
Proof.
  induction tbl as [ | cad rest IH]; cbn [sendBatch]; [apply framed_ret | ].
  apply framed_bind; [apply framed_sendCommand | intros _].
  destruct (len (data cad) =? 0); [assumption | ].
  apply framed_bind; [apply framed_sendData | intros _].
  apply framed_bind; [ | intros _; assumption].
  destruct (sleep_ cad >? 0); [apply framed_sleep | apply framed_ret].
Qed.

Lemma framed_SetWindow (d : Dev) (x0 y0 x1 y1 : Z) :
  framed (SetWindow d x0 y0 x1 y1).
Proof. apply framed_sendBatch. Qed.

(* ================================================================= *)
(** ** Addressing window *)

(** [SetWindow] on a transport that succeeds, for any coordinates. *)
Lemma SetWindow_ok (k : conn) (p : pin) (rst bl : option pin) (o : Opts)
    (x0 y0 x1 y1 : Z) (t : trace) :
  SetWindow (mkDev k (Some p) rst bl o) x0 y0 x1 y1 env_ok t
  = (t ++ map ok
       (flat_map (step_calls p k)
          [ (ST7735_CASET,
             [to_byte (Z.shiftr (int_add x0 (OffsetLeft o)) 8);
              to_byte (int_add x0 (OffsetLeft o));
              to_byte (Z.shiftr (int_add x1 (OffsetLeft o)) 8);
              to_byte (int_add x1 (OffsetLeft o))]);
            (ST7735_RASET,
             [to_byte (Z.shiftr (int_add y0 (OffsetTop o)) 8);
              to_byte (int_add y0 (OffsetTop o));
              to_byte (Z.shiftr (int_add y1 (OffsetTop o)) 8);
              to_byte (int_add y1 (OffsetTop o))]);
            (ST7735_RAMWR, []) ]),
     Ok tt).
Proof.
  rewrite framed_SetWindow; reflexivity.
Qed.

(** C4: with the default geometry (80 x 160, offsets 26 and 1),
    [SetWindow(0, 0, 79, 159)] issues column-address-set with parameters
    (0, 26, 0, 105), row-address-set with parameters (0, 1, 0, 160), the
    offsets added to the four coordinates and each coordinate sent as a
    big-endian byte pair, and then the memory-write opcode without
    payload. *)
Theorem SetWindow_default_geometry (k : conn) (p : pin) (rst bl : option pin) :
  DefaultOpts = mkOpts 80 160 26 1
  /\ run (SetWindow (mkDev k (Some p) rst bl DefaultOpts) 0 0 79 159) env_ok
     = ([ ok (PinOut p Low);  ok (ConnTx k [ST7735_CASET]);
          ok (PinOut p High); ok (ConnTx k [0; 26; 0; 105]);
          ok (PinOut p Low);  ok (ConnTx k [ST7735_RASET]);
          ok (PinOut p High); ok (ConnTx k [0; 1; 0; 160]);
          ok (PinOut p Low);  ok (ConnTx k [ST7735_RAMWR]) ],
        Ok tt)
  /\ [0; 26; 0; 105] = be16 (0 + OffsetLeft DefaultOpts)
                       ++ be16 (79 + OffsetLeft DefaultOpts)
  /\ [0; 1; 0; 160] = be16 (0 + OffsetTop DefaultOpts)
                      ++ be16 (159 + OffsetTop DefaultOpts).
Proof.
  split; [reflexivity | split; [ | split; reflexivity]].
  unfold run; rewrite SetWindow_ok; reflexivity.
Qed.

Lemma be16_exact (v : Z) :
  0 <= v <= 65535 ->
  to_byte (Z.shiftr v 8) = Z.shiftr v 8 /\
  is_byte (Z.shiftr v 8) /\ is_byte (v mod 256) /\
  Z.shiftr v 8 * 256 + v mod 256 = v /\
  (Z.shiftr v 8 = 0 <-> v < 256).
Proof.
  intros Hv; rewrite Z.shiftr_div_pow2 by lia; change (2 ^ 8) with 256.
  pose proof (Z.div_mod v 256 ltac:(lia)) as Hdm.
  pose proof (Z.mod_pos_bound v 256 eq_refl) as Hm.
  assert (0 <= v / 256 < 256) as Hd
      by (split; [apply Z.div_pos | apply Z.div_lt_upper_bound]; lia).
  unfold to_byte, is_byte; rewrite (Z.mod_small (v / 256)) by lia.
  repeat split; try lia.
Qed.

(** C10: when the four offset-adjusted coordinates lie in 0..65535,
    [SetWindow] sends each of them as its exact big-endian 16-bit
    encoding, high byte [v >> 8] then low byte [v mod 256]: the pair
    decodes back to the coordinate, and the high byte is zero exactly when
    the coordinate is below 256. *)
Theorem SetWindow_big_endian (k : conn) (p : pin) (rst bl : option pin)
    (o : Opts) (x0 y0 x1 y1 : Z) :
  0 <= x0 + OffsetLeft o <= 65535 ->
  0 <= x1 + OffsetLeft o <= 65535 ->
  0 <= y0 + OffsetTop o <= 65535 ->
  0 <= y1 + OffsetTop o <= 65535 ->
  tx_payloads (calls (fst (run (SetWindow (mkDev k (Some p) rst bl o)
                                          x0 y0 x1 y1) env_ok)))
  = [ [ST7735_CASET];
      be16 (x0 + OffsetLeft o) ++ be16 (x1 + OffsetLeft o);
      [ST7735_RASET];
      be16 (y0 + OffsetTop o) ++ be16 (y1 + OffsetTop o);
      [ST7735_RAMWR] ]
  /\ Forall (fun v =>
               is_byte (Z.shiftr v 8) /\ is_byte (v mod 256) /\
               Z.shiftr v 8 * 256 + v mod 256 = v /\
               (Z.shiftr v 8 = 0 <-> v < 256))
            [x0 + OffsetLeft o; x1 + OffsetLeft o;
             y0 + OffsetTop o; y1 + OffsetTop o].
Proof.
  intros Hx0 Hx1 Hy0 Hy1.
  pose proof min_int_neg; pose proof max_int_big.
  change (2 ^ 32) with 4294967296 in *.
  split.
  - unfold run; rewrite SetWindow_ok; cbn [app map flat_map step_calls fst snd].
    unfold int_add; rewrite !wrap_int_id by (unfold is_int; lia).
    destruct (be16_exact _ Hx0) as (-> & _), (be16_exact _ Hx1) as (-> & _),
             (be16_exact _ Hy0) as (-> & _), (be16_exact _ Hy1) as (-> & _).
    reflexivity.
  - repeat (apply Forall_cons; [now apply be16_exact | ]); constructor.
Qed.

Lemma SetWindow_big_endian_witness :
  tx_payloads (calls (fst (run (SetWindow (mkDev 0%nat (Some 9%nat) None None
                                                 (mkOpts 80 160 26 1))
                                          300 0 65509 159) env_ok)))
  = [ [0x2A]; [1; 70; 255; 255]; [0x2B]; [0; 1; 0; 160]; [0x2C] ].
Proof.
  refine (proj1 (@SetWindow_big_endian 0%nat 9%nat None None
                   (mkOpts 80 160 26 1) 300 0 65509 159 _ _ _ _));
    simpl; lia.
Defined.

(* ================================================================= *)
(** ** Backlight *)

(** C9: [SetBacklight] never returns an error (nor panics), whatever the
    handle, the argument and the answers of the collaborators; without a
    backlight pin it makes no call at all; with one it makes exactly one
    call, a write of that pin, high for [true] and low for [false], and
    the result of that write is dropped. *)
Theorem SetBacklight_never_fails (d : Dev) (value : bool) (E : env) (t : trace) :
  snd (SetBacklight d value E t) = Ok tt
  /\ fst (SetBacklight d value E t)
     = match backlight d with
       | None => t
       | Some p =>
           t ++ [(PinOut p (if value then High else Low),
                  E t (PinOut p (if value then High else Low)))]
       end
  /\ (forall q e,
         run (SetBacklight (mkDev (c d) (dc d) (rst d) (Some q) (opts d)) value)
             (env_fail_pin q e)
         = ([(PinOut q (if value then High else Low), Some e)], Ok tt)).
Proof.
  unfold SetBacklight, run; cbn [backlight].
  repeat split.
  - destruct (backlight d), value; reflexivity.
  - destruct (backlight d), value; reflexivity.
  - intros q e; destruct value; unfold perform_ignore, env_fail_pin;
      cbn [app]; rewrite Nat.eqb_refl; reflexivity.
Qed.

(* ================================================================= *)
(** ** Streaming an image *)

(** [Intersect] computes the rectangle of the larger minima and smaller
    maxima when that rectangle is not empty. *)
Lemma Intersect_nonempty (r s : image.Rectangle) :
  Z.max (image.X (image.Min r)) (image.X (image.Min s))
  < Z.min (image.X (image.Max r)) (image.X (image.Max s)) ->
  Z.max (image.Y (image.Min r)) (image.Y (image.Min s))
  < Z.min (image.Y (image.Max r)) (image.Y (image.Max s)) ->
  image.Intersect r s
  = image.mkRect
      (image.mkPoint (Z.max (image.X (image.Min r)) (image.X (image.Min s)))
                     (Z.max (image.Y (image.Min r)) (image.Y (image.Min s))))
      (image.mkPoint (Z.min (image.X (image.Max r)) (image.X (image.Max s)))
                     (Z.min (image.Y (image.Max r)) (image.Y (image.Max s)))).
Proof.
  intros Hx Hy; unfold image.Intersect, image.Empty; cbn [image.Min image.Max image.X image.Y].
  rewrite !Z.gtb_ltb.
  repeat match goal with
         | |- context [?a <? ?b] => destruct (Z.ltb_spec a b)
         end;
    repeat match goal with
           | |- context [?a >=? ?b] =>
               let H := fresh in
               destruct (a >=? b) eqn:H; [apply Z.geb_le in H; lia | clear H]
           end;
    cbn [orb]; repeat f_equal; lia.
Qed.

(** [Intersect] returns the zero rectangle when that rectangle is empty. *)
Lemma Intersect_empty (r s : image.Rectangle) :
  Z.min (image.X (image.Max r)) (image.X (image.Max s))
  <= Z.max (image.X (image.Min r)) (image.X (image.Min s))
  \/ Z.min (image.Y (image.Max r)) (image.Y (image.Max s))
     <= Z.max (image.Y (image.Min r)) (image.Y (image.Min s)) ->
  image.Intersect r s = image.ZR.
Proof.
  intros H; unfold image.Intersect, image.Empty; cbn [image.Min image.Max image.X image.Y].
  rewrite !Z.gtb_ltb.
  repeat match goal with
         | |- context [?a <? ?b] => destruct (Z.ltb_spec a b)
         end;
    match goal with
    | |- (if ?a || ?b then _ else _) = _ =>
        destruct a eqn:Ha; destruct b eqn:Hb; cbn [orb]; try reflexivity
    end;
    exfalso; rewrite Z.geb_leb in Ha, Hb;
    apply Z.leb_gt in Ha; apply Z.leb_gt in Hb; lia.
Qed.

Lemma disjoint_Intersect (r s : image.Rectangle) :
  disjoint r s -> image.Intersect r s = image.ZR.
Proof.
  intros Hd; apply Intersect_empty.
  destruct (Z_lt_le_dec
              (Z.max (image.X (image.Min r)) (image.X (image.Min s)))
              (Z.min (image.X (image.Max r)) (image.X (image.Max s))))
    as [Hx | Hx]; [ | now left].
  destruct (Z_lt_le_dec
              (Z.max (image.Y (image.Min r)) (image.Y (image.Min s)))
              (Z.min (image.Y (image.Max r)) (image.Y (image.Max s))))
    as [Hy | Hy]; [ | now right].
  exfalso.
  apply (Hd (Z.max (image.X (image.Min r)) (image.X (image.Min s)))
            (Z.max (image.Y (image.Min r)) (image.Y (image.Min s))));
    unfold image.In; cbn [image.X image.Y];
    rewrite !andb_true_iff, !Z.leb_le, !Z.ltb_lt; lia.
Qed.

(** A sub-image on a rectangle without width is the empty image. *)
Lemma SubImage_degenerate (img : RGBAImage) (a b : Z) :
  SubImage img (image.mkRect (image.mkPoint a b) (image.mkPoint a b))
  = Some (mkImage [] 0 image.ZR).
Proof.
  unfold SubImage; rewrite Intersect_empty; [reflexivity | ].
  left; cbn [image.X image.Min image.Max]; lia.
Qed.

Lemma sendData_nil_ok (k : conn) (p : pin) (rst bl : option pin) (o : Opts)
    (t : trace) :
  sendData (mkDev k (Some p) rst bl o) [] env_ok t
  = (t ++ [ok (PinOut p High)], Ok tt).
Proof. reflexivity. Qed.

(** The example image, placed at x = 1000, lies outside the default
    panel. *)
Lemma example_offscreen :
  disjoint (image.Add (Bounds example_img) (image.mkPoint 1000 0))
           (maxBounds example_dev).
Proof.
  change (image.Add (Bounds example_img) (image.mkPoint 1000 0))
    with (image.mkRect (image.mkPoint 1000 0) (image.mkPoint 1002 2)).
  change (maxBounds example_dev)
    with (image.mkRect (image.mkPoint 0 0) (image.mkPoint 80 160)).
  intros px py; unfold image.In; cbn [image.X image.Y image.Min image.Max].
  rewrite !andb_true_iff, !Z.leb_le, !Z.ltb_lt; lia.
Qed.

(** C2 (amended): when the shifted bounds of the image share no point with
    the visible rectangle, [DisplayImage] still calls [SetWindow], on the
    degenerate window (0, 0, -1, -1), which issues column-address-set,
    row-address-set and memory-write; after that it raises the select line
    and performs no transaction: no pixel data is transmitted. *)
Theorem DisplayImage_offscreen (k : conn) (p : pin) (rst bl : option pin)
    (o : Opts) (x y : Z) (img : RGBAImage) :
  disjoint (image.Add (Bounds img) (image.mkPoint x y))
           (maxBounds (mkDev k (Some p) rst bl o)) ->
  run (DisplayImage (mkDev k (Some p) rst bl o) x y img) env_ok
  = (fst (run (SetWindow (mkDev k (Some p) rst bl o) 0 0 (-1) (-1)) env_ok)
     ++ [ok (PinOut p High)],
     Ok tt)
  /\ tx_payloads
       (calls (fst (run (DisplayImage (mkDev k (Some p) rst bl o) x y img)
                        env_ok)))
     = [ [ST7735_CASET];
         [to_byte (Z.shiftr (int_add 0 (OffsetLeft o)) 8);
          to_byte (int_add 0 (OffsetLeft o));
          to_byte (Z.shiftr (int_add (-1) (OffsetLeft o)) 8);
          to_byte (int_add (-1) (OffsetLeft o))];
         [ST7735_RASET];
         [to_byte (Z.shiftr (int_add 0 (OffsetTop o)) 8);
          to_byte (int_add 0 (OffsetTop o));
          to_byte (Z.shiftr (int_add (-1) (OffsetTop o)) 8);
          to_byte (int_add (-1) (OffsetTop o))];
         [ST7735_RAMWR] ].
Proof.
  intros Hd.
  assert (run (DisplayImage (mkDev k (Some p) rst bl o) x y img) env_ok
          = (fst (run (SetWindow (mkDev k (Some p) rst bl o) 0 0 (-1) (-1))
                      env_ok)
             ++ [ok (PinOut p High)], Ok tt)) as Hrun.
  { unfold run, DisplayImage.
    rewrite (disjoint_Intersect _ _ Hd).
    unfold image.ZR, image.Sub; cbn [image.Min image.Max image.X image.Y].
    change (int_sub 0 1) with (-1).
    unfold bind at 1; rewrite !SetWindow_ok; cbn [fst].
    rewrite SubImage_degenerate; cbn [lift_option]; rewrite bind_ret.
    rewrite !zrange_nil by lia; cbn [image_loop lift_option].
    rewrite bind_ret; apply sendData_nil_ok. }
  split; [exact Hrun | ].
  rewrite Hrun; unfold run; rewrite SetWindow_ok; reflexivity.
Qed.

Lemma DisplayImage_offscreen_witness :
  run (DisplayImage example_dev 1000 0 example_img) env_ok
  = (fst (run (SetWindow example_dev 0 0 (-1) (-1)) env_ok)
     ++ [ok (PinOut 9%nat High)],
     Ok tt).
Proof.
  refine (proj1 (@DisplayImage_offscreen 0%nat 9%nat None None DefaultOpts
                   1000 0 example_img _)).
  exact example_offscreen.
Defined.

(** C2 (as claimed, refuted): a 2 x 2 image placed at x = 1000 on the
    default panel shares no point with the visible rectangle, yet
    [DisplayImage] issues column-address-set, row-address-set and
    memory-write. *)
Lemma DisplayImage_offscreen_sets_window :
  disjoint (image.Add (Bounds example_img) (image.mkPoint 1000 0))
           (maxBounds example_dev)
  /\ tx_payloads
       (calls (fst (run (DisplayImage example_dev 1000 0 example_img) env_ok)))
     = [ [ST7735_CASET]; [0; 26; 0; 25];
         [ST7735_RASET]; [0; 1; 0; 0];
         [ST7735_RAMWR] ].
Proof.
  split; [exact example_offscreen | vm_compute; reflexivity].
Qed.

Lemma In_spec (px py : Z) (r : image.Rectangle) :
  image.In (image.mkPoint px py) r = true <->
  image.X (image.Min r) <= px < image.X (image.Max r) /\
  image.Y (image.Min r) <= py < image.Y (image.Max r).
Proof.
  unfold image.In; cbn [image.X image.Y].
  rewrite !andb_true_iff, !Z.leb_le, !Z.ltb_lt; lia.
Qed.

(** On a well-formed image the offset arithmetic of [PixOffset] does not
    wrap. *)
Lemma PixOffset_exact (img : RGBAImage) (px py : Z) :
  wf_image img ->
  image.In (image.mkPoint px py) (Rect img) = true ->
  PixOffset img px py = pixel_offset img px py /\
  0 <= pixel_offset img px py.
Proof.
  intros (Hax & Hay & Hbx & Hby & Hdx & Hdy & HS & HL & Hpix) Hin.
  specialize (Hpix px py Hin); apply In_spec in Hin.
  pose proof min_int_neg as Hmin.
  unfold PixOffset, pixel_offset, int_add, int_mul, int_sub, is_int in *.
  set (ax := image.X (image.Min (Rect img))) in *.
  set (ay := image.Y (image.Min (Rect img))) in *.
  assert (0 <= (py - ay) * Stride img) by (apply Z.mul_nonneg_nonneg; lia).
  assert (0 <= (px - ax) * 4) by lia.
  rewrite (@wrap_int_id (py - ay)) by (unfold is_int; lia).
  rewrite (@wrap_int_id (px - ax)) by (unfold is_int; lia).
  rewrite (@wrap_int_id ((py - ay) * Stride img)) by (unfold is_int; lia).
  rewrite (@wrap_int_id ((px - ax) * 4)) by (unfold is_int; lia).
  rewrite wrap_int_id by (unfold is_int; lia).
  split; [reflexivity | lia].
Qed.

Lemma firstn_4 (l : list Z) :
  (4 <= length l)%nat ->
  firstn 4 l = [nth 0 l 0; nth 1 l 0; nth 2 l 0; nth 3 l 0].
Proof.
  destruct l as [ | a [ | b [ | c0 [ | e l]]]]; simpl; intros H;
    try lia; reflexivity.
Qed.

(** [At] on a pixel of a well-formed image reads its four bytes. *)
Lemma At_wf (img : RGBAImage) (px py : Z) :
  wf_image img ->
  image.In (image.mkPoint px py) (Rect img) = true ->
  At img px py = Some (stored_colour img px py).
Proof.
  intros Hwf Hin.
  destruct (PixOffset_exact _ _ _ Hwf Hin) as (Hoff & Hpos).
  destruct Hwf as (_ & _ & _ & _ & _ & _ & _ & HL & Hpix).
  specialize (Hpix px py Hin).
  unfold At, stored_colour; rewrite Hin, Hoff; cbn [negb].
  unfold int_add; rewrite wrap_int_id
    by (pose proof min_int_neg; unfold is_int; lia).
  unfold slice.
  replace ((0 <=? pixel_offset img px py) &&
           (pixel_offset img px py <=? pixel_offset img px py + 4) &&
           (pixel_offset img px py + 4 <=? len (Pix img))) with true
    by (symmetry; rewrite !andb_true_iff, !Z.leb_le; lia).
  replace (Z.to_nat (pixel_offset img px py + 4 - pixel_offset img px py))
    with 4%nat by lia.
  rewrite firstn_4; [reflexivity | ].
  rewrite length_skipn; unfold len in *; lia.
Qed.

(** A sub-image on a non-empty rectangle inside the bounds shares the
    pixels of the image. *)
Lemma SubImage_inside (img : RGBAImage) (r : image.Rectangle) :
  wf_image img -> nonempty r -> inside r (Rect img) ->
  exists sub,
    SubImage img r = Some sub /\ Rect sub = r /\ wf_image sub /\
    forall px py,
      image.In (image.mkPoint px py) r = true ->
      stored_colour sub px py = stored_colour img px py.
Proof.
  intros Hwf (Hnx & Hny) (Hx0 & Hx1 & Hy0 & Hy1).
  destruct r as [[rx0 ry0] [rx1 ry1]]; cbn [image.X image.Y image.Min image.Max] in *.
  assert (image.In (image.mkPoint rx0 ry0) (Rect img) = true) as Hcorner
      by (apply In_spec; cbn [image.X image.Y]; lia).
  destruct (PixOffset_exact _ _ _ Hwf Hcorner) as (Hoff & Hpos).
  pose proof Hwf as (Hax & Hay & Hbx & Hby & Hdx & Hdy & HS & HL & Hpix).
  pose proof (Hpix _ _ Hcorner) as Hc4.
  set (i0 := pixel_offset img rx0 ry0) in *.
  exists (mkImage (skipn (Z.to_nat i0) (Pix img)) (Stride img)
                  (image.mkRect (image.mkPoint rx0 ry0) (image.mkPoint rx1 ry1))).
  split; [ | split; [reflexivity | split]].
  - unfold SubImage; rewrite Intersect_nonempty;
      cbn [image.X image.Y image.Min image.Max]; try lia.
    rewrite !Z.max_l, !Z.min_l by lia.
    unfold image.Empty; cbn [image.X image.Y image.Min image.Max].
    replace (rx0 >=? rx1) with false by (symmetry; rewrite Z.geb_leb; apply Z.leb_gt; lia).
    replace (ry0 >=? ry1) with false by (symmetry; rewrite Z.geb_leb; apply Z.leb_gt; lia).
    cbn [orb]; rewrite Hoff; unfold slice_from, slice.
    replace ((0 <=? i0) && (i0 <=? len (Pix img)) && (len (Pix img) <=? len (Pix img)))
      with true by (symmetry; rewrite !andb_true_iff, !Z.leb_le; lia).
    rewrite firstn_all2; [reflexivity | ].
    rewrite length_skipn; unfold len; lia.
  - unfold wf_image, is_int in *; cbn [Rect Stride Pix image.X image.Y image.Min image.Max].
    pose proof min_int_neg.
    repeat split; try lia.
    + unfold len in *; rewrite length_skipn; lia.
    + intros px py Hin; apply In_spec in Hin;
        cbn [image.X image.Y image.Min image.Max] in Hin.
      assert (image.In (image.mkPoint px py) (Rect img) = true) as Hin'
          by (apply In_spec; lia).
      specialize (Hpix _ _ Hin').
      unfold pixel_offset, len in *; cbn [Rect Stride Pix image.X image.Y image.Min] in *.
      rewrite length_skipn; subst i0; lia.
  - intros px py Hin; apply In_spec in Hin;
      cbn [image.X image.Y image.Min image.Max] in Hin.
    unfold stored_colour; cbn [Pix]; rewrite skipn_skipn.
    replace (Z.to_nat (pixel_offset
                         (mkImage (skipn (Z.to_nat i0) (Pix img)) (Stride img)
                            (image.mkRect (image.mkPoint rx0 ry0)
                                          (image.mkPoint rx1 ry1))) px py)
             + Z.to_nat i0)%nat
      with (Z.to_nat (pixel_offset img px py)); [reflexivity | ].
    unfold pixel_offset in *; cbn [Rect Stride image.X image.Y image.Min] in *.
    assert (0 <= (py - ry0) * Stride img) by (apply Z.mul_nonneg_nonneg; lia).
    subst i0; lia.
Qed.

(** The inner loop appends the bytes of the pixels of one column, top to
    bottom. *)
Lemma column_loop_ok (sub : RGBAImage) (f : Z -> color.RGBA) (px : Z)
    (ys : list Z) :
  (forall py, List.In py ys -> At sub px py = Some (f py)) ->
  forall buf,
    column_loop sub px ys buf
    = Some (buf ++ flat_map (fun py => pixel_bytes (f py)) ys).
Proof.
  induction ys as [ | py ys IH]; intros Hat buf; cbn [column_loop flat_map].
  - now rewrite app_nil_r.
  - rewrite (Hat py (or_introl eq_refl)), IH, <- app_assoc; [reflexivity | ].
    intros py' Hin; apply Hat; now right.
Qed.

(** The outer loop appends the columns, left to right. *)
Lemma image_loop_ok (sub : RGBAImage) (f : Z -> Z -> color.RGBA)
    (xs ys : list Z) :
  (forall px py, List.In px xs -> List.In py ys ->
                 At sub px py = Some (f px py)) ->
  forall buf,
    image_loop sub xs ys buf
    = Some (buf ++
            flat_map (fun px => flat_map (fun py => pixel_bytes (f px py)) ys)
                     xs).
Proof.
  induction xs as [ | px xs IH]; intros Hat buf; cbn [image_loop flat_map].
  - now rewrite app_nil_r.
  - rewrite (column_loop_ok sub (f px) px ys)
      by (intros py Hin; apply Hat; [now left | assumption]).
    rewrite IH, <- app_assoc; [reflexivity | ].
    intros px' py Hx Hy; apply Hat; [now right | assumption].
Qed.

Lemma flat_map_length_const {A B} (g : A -> list B) (n : nat) (l : list A) :
  (forall a, length (g a) = n) -> length (flat_map g l) = (n * length l)%nat.
Proof.
  intros Hg; induction l as [ | a l IH]; cbn [flat_map length]; [lia | ].
  rewrite length_app, Hg, IH; lia.
Qed.

Lemma column_major_length (img : RGBAImage) (xlo xhi ylo yhi : Z) :
  xlo <= xhi -> ylo <= yhi ->
  len (column_major img xlo xhi ylo yhi) = 2 * (xhi - xlo) * (yhi - ylo).
Proof.
  intros Hx Hy; unfold column_major, len.
  rewrite (flat_map_length_const _ (2 * Z.to_nat (yhi - ylo))).
  - rewrite zrange_length, !Nat2Z.inj_mul, !Z2Nat.id by lia.
    change (Z.of_nat 2) with 2; ring.
  - intros px; rewrite (flat_map_length_const _ 2), zrange_length;
      [reflexivity | reflexivity].
Qed.

(** C5: for a well-formed image whose shifted bounds meet the visible
    rectangle, [DisplayImage] sets the window to the intersection
    [clipped] (inclusive end coordinates), then streams exactly the pixels
    of the image that fall in it, column by column (outer loop over x,
    inner loop over y), two bytes per pixel: the streamed bytes number
    [2 * clipped_width * clipped_height]. *)
Theorem DisplayImage_clipped (k : conn) (p : pin) (rst bl : option pin)
    (o : Opts) (x y : Z) (img : RGBAImage) :
  wf_image img ->
  is_byte (Width o) -> is_byte (Height o) ->
  is_int (image.X (image.Min (Rect img)) + x) ->
  is_int (image.Y (image.Min (Rect img)) + y) ->
  is_int (image.X (image.Max (Rect img)) + x) ->
  is_int (image.Y (image.Max (Rect img)) + y) ->
  nonempty (clipped img x y o) ->
  exists cs,
    run (DisplayImage (mkDev k (Some p) rst bl o) x y img) env_ok
    = (fst (run (SetWindow (mkDev k (Some p) rst bl o)
                   (image.X (image.Min (clipped img x y o)))
                   (image.Y (image.Min (clipped img x y o)))
                   (image.X (image.Max (clipped img x y o)) - 1)
                   (image.Y (image.Max (clipped img x y o)) - 1)) env_ok)
       ++ ok (PinOut p High) :: map (tx_ok k) cs,
       Ok tt)
    /\ concat cs
       = column_major img
           (image.X (image.Min (clipped img x y o)) - x)
           (image.X (image.Max (clipped img x y o)) - x)
           (image.Y (image.Min (clipped img x y o)) - y)
           (image.Y (image.Max (clipped img x y o)) - y)
    /\ len (concat cs)
       = 2 * (image.X (image.Max (clipped img x y o))
              - image.X (image.Min (clipped img x y o)))
           * (image.Y (image.Max (clipped img x y o))
              - image.Y (image.Min (clipped img x y o)))
    /\ forall px py,
         (image.X (image.Min (clipped img x y o)) - x <= px
          < image.X (image.Max (clipped img x y o)) - x /\
          image.Y (image.Min (clipped img x y o)) - y <= py
          < image.Y (image.Max (clipped img x y o)) - y)
         <->
         (image.In (image.mkPoint px py) (Rect img) = true /\
          image.In (image.mkPoint (px + x) (py + y))
                   (maxBounds (mkDev k (Some p) rst bl o)) = true).
Proof.
  intros Hwf HW HH Hax Hay Hbx Hby (Hnx & Hny).
  pose proof Hwf as (Iax & Iay & Ibx & Iby & Idx & Idy & HS & HL & Hpix).
  pose proof min_int_neg as Hmin; pose proof max_int_big as Hmax.
  change (2 ^ 32) with 4294967296 in Hmax.
  unfold is_byte, is_int in *.
  destruct img as [pix stride [[ax ay] [bx by_]]].
  unfold clipped in *; cbn [Rect image.X image.Y image.Min image.Max] in *.
  set (cx0 := Z.max (ax + x) 0) in *; set (cy0 := Z.max (ay + y) 0) in *.
  set (cx1 := Z.min (bx + x) (Width o)) in *.
  set (cy1 := Z.min (by_ + y) (Height o)) in *.
  set (img := mkImage pix stride
                (image.mkRect (image.mkPoint ax ay) (image.mkPoint bx by_))) in *.
  set (d := mkDev k (Some p) rst bl o).
  (* the sub-image the loops read *)
  destruct (SubImage_inside img
              (image.mkRect (image.mkPoint (cx0 - x) (cy0 - y))
                            (image.mkPoint (cx1 - x) (cy1 - y))) Hwf)
    as (sub & Hsub & Hrect & Hwfsub & Hcol).
  { split; cbn [image.X image.Y image.Min image.Max]; lia. }
  { unfold inside; cbn [Rect img image.X image.Y image.Min image.Max]; lia. }
  (* the buffer built by the loops *)
  assert (image_loop sub (zrange (cx0 - x) (cx1 - x)) (zrange (cy0 - y) (cy1 - y)) []
          = Some (column_major img (cx0 - x) (cx1 - x) (cy0 - y) (cy1 - y)))
    as Hloop.
  { rewrite (image_loop_ok sub (stored_colour img)); [reflexivity | ].
    intros px py Hpx Hpy; apply zrange_In in Hpx; apply zrange_In in Hpy.
    assert (image.In (image.mkPoint px py)
              (image.mkRect (image.mkPoint (cx0 - x) (cy0 - y))
                            (image.mkPoint (cx1 - x) (cy1 - y))) = true) as Hin
        by (apply In_spec; cbn [image.X image.Y image.Min image.Max]; lia).
    rewrite At_wf, Hcol; try assumption; [reflexivity | now rewrite Hrect]. }
  pose proof (column_major_length img (cx0 - x) (cx1 - x) (cy0 - y) (cy1 - y)
                ltac:(lia) ltac:(lia)) as Hlen.
  replace (cx1 - x - (cx0 - x)) with (cx1 - cx0) in Hlen by lia.
  replace (cy1 - y - (cy0 - y)) with (cy1 - cy0) in Hlen by lia.
  assert (0 < cx1 - cx0 <= 255 /\ 0 < cy1 - cy0 <= 255) as (Bw & Bh) by lia.
  assert ((cx1 - cx0) * (cy1 - cy0) <= 255 * 255) as Harea
      by (apply Z.mul_le_mono_nonneg; lia).
  destruct (sendData_ok d p
              (column_major img (cx0 - x) (cx1 - x) (cy0 - y) (cy1 - y))
              (fst (run (SetWindow d cx0 cy0 (cx1 - 1) (cy1 - 1)) env_ok))
              eq_refl)
    as (cs & Hsend & Hcat & _).
  { rewrite Hlen; unfold ChunkSize; lia. }
  exists cs; split; [ | split; [exact Hcat | split]].
  - unfold run, DisplayImage, Bounds, maxBounds, image.Add, image.Sub, int_add, int_sub.
    unfold d; cbn [Rect img opts image.X image.Y image.Min image.Max].
    rewrite !(@wrap_int_id (_ + _)) by (unfold is_int; lia).
    rewrite Intersect_nonempty;
      cbn [image.X image.Y image.Min image.Max]; try (fold cx0 cx1; lia);
      try (fold cy0 cy1; lia).
    fold cx0 cy0 cx1 cy1.
    rewrite !(@wrap_int_id (_ - _)) by (unfold is_int; lia).
    unfold d, run in Hsend; rewrite SetWindow_ok in Hsend.
    unfold bind at 1; rewrite !SetWindow_ok; cbn [fst snd app] in *.
    rewrite Hsub; cbn [lift_option]; rewrite bind_ret.
    rewrite Hloop; cbn [lift_option]; rewrite bind_ret.
    exact Hsend.
  - rewrite Hcat, Hlen; lia.
  - intros px py; rewrite !In_spec.
    unfold img, maxBounds, d; cbn [Rect opts image.X image.Y image.Min image.Max].
    lia.
Qed.

Lemma example_img_wf : wf_image example_img.
Proof.
  unfold wf_image, is_int, example_img;
    cbn [Rect Stride Pix image.X image.Y image.Min image.Max].
  repeat split; try (vm_compute; discriminate).
  intros px py Hin; apply In_spec in Hin.
  cbn [Rect image.X image.Y image.Min image.Max] in Hin.
  unfold pixel_offset, len; cbn [Rect Stride Pix image.X image.Y image.Min length].
  lia.
Qed.

Lemma DisplayImage_clipped_witness :
  exists cs,
    run (DisplayImage example_dev (-1) 159 example_img) env_ok
    = (fst (run (SetWindow example_dev 0 159 0 159) env_ok)
       ++ ok (PinOut 9%nat High) :: map (tx_ok 0%nat) cs,
       Ok tt)
    /\ concat cs = [7; 224]
    /\ len (concat cs) = 2 * (1 - 0) * (160 - 159).
Proof.
  destruct (DisplayImage_clipped 0%nat 9%nat None None DefaultOpts (-1) 159
              example_img example_img_wf)
    as (cs & Hrun & Hcat & Hlen & _).
  1-7: vm_compute; split; first [reflexivity | discriminate].
  exists cs; split; [exact Hrun | split; [exact Hcat | exact Hlen]].
Defined.

(* ================================================================= *)
(** * Further properties of the driver *)

(** Closed comparisons of numerals. *)
Ltac decide_closed :=
  vm_compute; repeat apply conj; first [discriminate | reflexivity].

(** ** Sequencing *)

Lemma bind_assoc {A B C} (m : M A) (f : A -> M B) (g : B -> M C) :
  same_run (bind (bind m f) g) (bind m (fun a => bind (f a) g)).
Proof.
  intros E t; unfold bind.
  destruct (m E t) as [t1 [a | e | ]]; reflexivity.
Qed.

Lemma bind_ext {A B} (m : M A) (f g : A -> M B) :
  (forall a, same_run (f a) (g a)) -> same_run (bind m f) (bind m g).
Proof.
  intros H E t; unfold bind.
  destruct (m E t) as [t1 [a | e | ]]; [apply H | reflexivity | reflexivity].
Qed.

Lemma bind_ret_unit (m : M unit) : same_run (bind m (fun _ => ret tt)) m.
Proof.
  intros E t; unfold bind, ret.
  destruct (m E t) as [t1 [[] | e | ]]; reflexivity.
Qed.

(** X1: sending a table made of two parts is sending the first part and
    then, if that returned no error, the second: [sendBatch] keeps no
    state between steps. *)
Theorem sendBatch_app (d : Dev) (a b : list commandAndData) :
  same_run (sendBatch d (a ++ b)) (sendBatch d a ;;; sendBatch d b).
Proof.
  induction a as [ | cad a IH]; intros E t.
  - reflexivity.
  - cbn [app sendBatch].
    rewrite (bind_assoc _ _ _ E t).
    apply bind_ext; intros _; clear E t; intros E t.
    destruct (len (data cad) =? 0); [apply IH | ].
    rewrite (bind_assoc _ _ _ E t).
    apply bind_ext; intros _; clear E t; intros E t.
    rewrite (bind_assoc _ _ _ E t).
    apply bind_ext; intros _; apply IH.
Qed.

(* ================================================================= *)
(** ** No retry, no reordering *)

Lemma calls_app (a b : trace) : calls (a ++ b) = calls a ++ calls b.
Proof. apply map_app. Qed.

Lemma is_prefix_refl {A} (a : list A) : is_prefix a a.
Proof. exists []; now rewrite app_nil_r. Qed.

Lemma is_prefix_app_r {A} (a b c0 : list A) :
  is_prefix a b -> is_prefix a (b ++ c0).
Proof. intros (r & ->); exists (r ++ c0); now rewrite app_assoc. Qed.

Lemma is_prefix_app_l {A} (a b c0 : list A) :
  is_prefix a b -> is_prefix (c0 ++ a) (c0 ++ b).
Proof. intros (r & ->); exists r; now rewrite app_assoc. Qed.

Lemma nominal_ret {A} (a : A) : follows_nominal (ret a).
Proof.
  intros E t; exists []; cbn; rewrite app_nil_r; split; [reflexivity | now left].
Qed.

Lemma nominal_panic {A} : follows_nominal (@panic A).
Proof.
  intros E t; exists []; cbn; rewrite app_nil_r; split; [reflexivity | now left].
Qed.

Lemma nominal_lift_option {A} (o : option A) : follows_nominal (lift_option o).
Proof. destruct o; [apply nominal_ret | apply nominal_panic]. Qed.

Lemma nominal_perform (k : call) : follows_nominal (perform k).
Proof.
  intros E t; exists [(k, E t k)]; unfold perform; cbn [fst snd].
  split; [reflexivity | ].
  destruct (E t k) as [e | ]; [right | left]; cbn.
  - split; [now exists e | apply is_prefix_refl].
  - split; reflexivity.
Qed.

Lemma nominal_perform_ignore (k : call) : follows_nominal (perform_ignore k).
Proof.
  intros E t; exists [(k, E t k)]; unfold perform_ignore; cbn [fst snd].
  split; [reflexivity | left; split; reflexivity].
Qed.

Lemma nominal_sleep (n : Z) : follows_nominal (sleep n).
Proof.
  intros E t; exists [(TimeSleep n, None)]; cbn.
  split; [reflexivity | left; split; reflexivity].
Qed.

Lemma nominal_pin_out (p : option pin) (l : Level) : follows_nominal (pin_out p l).
Proof. destruct p; [apply nominal_perform | apply nominal_panic]. Qed.

Lemma nominal_bind {A B} (m : M A) (f : A -> M B) :
  follows_nominal m ->
  (forall a, follows_nominal (f a)) ->
  (forall a, framed (f a)) ->
  follows_nominal (bind m f).
Proof.
  intros Hm Hf Hfr E t; destruct (Hm E t) as (seg & Ht & Hcases).
  unfold bind.
  destruct (m E t) as [t1 r]; destruct (m env_ok []) as [s0 r0].
  cbn [fst snd] in *; subst t1.
  destruct Hcases as [(-> & Hcalls) | ((e & ->) & Hpre)].
  - destruct r0 as [a | e | ].
    + rewrite (Hfr a s0).
      destruct (Hf a E (t ++ seg)) as (seg' & Ht' & Hc').
      exists (seg ++ seg'); rewrite Ht', app_assoc; split; [reflexivity | ].
      cbn [fst snd]; rewrite !calls_app, Hcalls.
      destruct Hc' as [(Hr & Hcs) | (He & Hp)].
      * left; split; [assumption | now rewrite Hcs].
      * right; split; [assumption | now apply is_prefix_app_l].
    + exists seg; split; [reflexivity | left; split; [reflexivity | assumption]].
    + exists seg; split; [reflexivity | left; split; [reflexivity | assumption]].
  - exists seg; split; [reflexivity | right; split; [now exists e | ]].
    destruct r0 as [a | e0 | ]; cbn [fst]; try assumption.
    rewrite (Hfr a s0); cbn [fst]; rewrite calls_app.
    now apply is_prefix_app_r.
Qed.

Lemma framed_perform_ignore (k : call) : framed (perform_ignore k).
Proof. intros t; reflexivity. Qed.

Lemma nominal_sendCommand (d : Dev) (w : list Z) : follows_nominal (sendCommand d w).
Proof.
  unfold sendCommand; apply nominal_bind; intros;
    [apply nominal_pin_out | apply nominal_perform | apply framed_perform].
Qed.

Lemma framed_sendData_loop (fuel : nat) (d : Dev) (w : list Z) (offset : Z) :
  framed (sendData_loop fuel d w offset).
Proof.
  revert offset; induction fuel as [ | fuel IH]; intros offset;
    cbn [sendData_loop]; [apply framed_ret | ].
  destruct (offset <? len w); [ | apply framed_ret].
  apply framed_bind; intros; [apply framed_lift_option | ].
  apply framed_bind; intros; [apply framed_perform | apply IH].
Qed.

Lemma nominal_sendData_loop (fuel : nat) (d : Dev) (w : list Z) (offset : Z) :
  follows_nominal (sendData_loop fuel d w offset).
Proof.
  revert offset; induction fuel as [ | fuel IH]; intros offset;
    cbn [sendData_loop]; [apply nominal_ret | ].
  destruct (offset <? len w); [ | apply nominal_ret].
  apply nominal_bind; intros; [apply nominal_lift_option | | ].
  - apply nominal_bind; intros;
      [apply nominal_perform | apply IH | apply framed_sendData_loop].
  - apply framed_bind; intros; [apply framed_perform | apply framed_sendData_loop].
Qed.

Lemma nominal_sendData (d : Dev) (w : list Z) : follows_nominal (sendData d w).
Proof.
  unfold sendData; apply nominal_bind; intros;
    [apply nominal_pin_out | apply nominal_sendData_loop
     | apply framed_sendData_loop].
Qed.

Lemma nominal_sendBatch (d : Dev) (tbl : list commandAndData) :
  follows_nominal (sendBatch d tbl).
Proof.
  induction tbl as [ | cad rest IH]; cbn [sendBatch]; [apply nominal_ret | ].
  assert (framed (if sleep_ cad >? 0 then sleep (sleep_ cad) else ret tt)) as Hfs
      by (destruct (sleep_ cad >? 0); [apply framed_sleep | apply framed_ret]).
  apply nominal_bind; [apply nominal_sendCommand | intros _ | intros _].
  - destruct (len (data cad) =? 0); [assumption | ].
    apply nominal_bind; [apply nominal_sendData | intros _ | intros _].
    + apply nominal_bind; [ | intros _; assumption
                           | intros _; apply framed_sendBatch].
      destruct (sleep_ cad >? 0); [apply nominal_sleep | apply nominal_ret].
    + apply framed_bind; [assumption | intros _; apply framed_sendBatch].
  - destruct (len (data cad) =? 0); [apply framed_sendBatch | ].
    apply framed_bind; [apply framed_sendData | intros _].
    apply framed_bind; [assumption | intros _; apply framed_sendBatch].
Qed.

Lemma framed_SetBacklight (d : Dev) (v : bool) : framed (SetBacklight d v).
Proof.
  unfold SetBacklight; destruct (backlight d); [ | apply framed_ret].
  destruct v; apply framed_perform_ignore.
Qed.

Lemma nominal_SetBacklight (d : Dev) (v : bool) : follows_nominal (SetBacklight d v).
Proof.
  unfold SetBacklight; destruct (backlight d); [ | apply nominal_ret].
  destruct v; apply nominal_perform_ignore.
Qed.

Lemma framed_DisplayImage_tail (d : Dev) (img : RGBAImage) (bounds : image.Rectangle) :
  framed (subImg <- lift_option (SubImage img bounds) ;;
          buf <- lift_option
                   (image_loop subImg
                      (zrange (image.X (image.Min bounds)) (image.X (image.Max bounds)))
                      (zrange (image.Y (image.Min bounds)) (image.Y (image.Max bounds)))
                      []) ;;
          sendData d buf).
Proof.
  apply framed_bind; intros; [apply framed_lift_option | ].
  apply framed_bind; intros; [apply framed_lift_option | apply framed_sendData].
Qed.

(** X2: no retry, no reordering, nothing extra.  For every public method
    of the handle, on every environment and from every history, the calls
    made are exactly those of the run on collaborators that always succeed
    when the method returns what that run returns, and an initial segment
    of them when it returns an error. *)
Theorem methods_follow_nominal (d : Dev) :
  follows_nominal (Init d)
  /\ follows_nominal (Powersave d)
  /\ follows_nominal (Halt d)
  /\ (forall v, follows_nominal (SetBacklight d v))
  /\ (forall x0 y0 x1 y1, follows_nominal (SetWindow d x0 y0 x1 y1))
  /\ (forall x y img, follows_nominal (DisplayImage d x y img))
  /\ (forall w, follows_nominal (Display d w)).
Proof.
  repeat apply conj.
  - apply nominal_sendBatch.
  - apply nominal_sendCommand.
  - unfold Halt; apply nominal_bind; intros;
      [apply nominal_SetBacklight | apply nominal_sendCommand
       | apply framed_sendCommand].
  - apply nominal_SetBacklight.
  - intros; apply nominal_sendBatch.
  - intros x y img; unfold DisplayImage.
    apply nominal_bind; [apply nominal_sendBatch | intros _ | intros _].
    + apply nominal_bind; intros; [apply nominal_lift_option | | ].
      * apply nominal_bind; intros;
          [apply nominal_lift_option | apply nominal_sendData
           | apply framed_sendData].
      * apply framed_bind; intros; [apply framed_lift_option | apply framed_sendData].
    + apply framed_DisplayImage_tail.
  - intros w; unfold Display.
    apply nominal_bind; intros;
      [apply nominal_sendBatch | apply nominal_sendData | apply framed_sendData].
Qed.

(* ================================================================= *)
(** ** Number of transactions of [sendData] *)

Lemma chunking_count (cs : list (list Z)) (w : list Z) :
  chunking w cs -> Z.of_nat (length cs) = (len w + 4095) / 4096.
Proof.
  intros (Hc & Hall & Hinit); subst w; unfold ChunkSize in *.
  induction cs as [ | ch cs IH]; [reflexivity | ].
  destruct cs as [ | ch' cs'].
  - inversion Hall as [ | ? ? Hch _]; subst.
    cbn [concat length]; rewrite app_nil_r.
    apply Z.div_unique with (r := len ch - 1); unfold len in *; cbn [length]; lia.
  - change (removelast (ch :: ch' :: cs'))
      with (ch :: removelast (ch' :: cs')) in Hinit.
    inversion Hinit as [ | ? ? Hfull Hinit']; subst.
    inversion Hall as [ | ? ? _ Hall']; subst.
    specialize (IH Hall' Hinit').
    cbn [concat] in *; cbn [length]; unfold len in *.
    rewrite length_app, Nat2Z.inj_add, Hfull, Nat2Z.inj_succ.
    replace (4096 + Z.of_nat (length (ch' ++ concat cs')) + 4095)
      with (Z.of_nat (length (ch' ++ concat cs')) + 4095 + 1 * 4096) by lia.
    rewrite Z.div_add by lia; rewrite <- IH; cbn [length]; lia.
Qed.

(** X3: on a transport that succeeds, [sendData] performs exactly
    [ceil(len / ChunkSize)] transactions: none for an empty payload, and no
    empty trailing transaction when the length is a multiple of the chunk
    size. *)
Theorem sendData_transaction_count (k : conn) (p : pin) (rst bl : option pin)
    (o : Opts) (w : list Z) :
  len w + ChunkSize <= max_int ->
  Z.of_nat (length (tx_payloads
                      (calls (fst (run (sendData (mkDev k (Some p) rst bl o) w)
                                       env_ok)))))
  = (len w + ChunkSize - 1) / ChunkSize.
Proof.
  intros Hmax.
  destruct (sendData_ok (mkDev k (Some p) rst bl o) p w [] eq_refl Hmax)
    as (cs & Hrun & Hch).
  unfold run; rewrite Hrun; cbn [app fst c].
  change (calls ((PinOut p High, None) :: map (tx_ok k) cs))
    with (PinOut p High :: calls (map (tx_ok k) cs)).
  cbn [tx_payloads]; rewrite tx_payloads_tx_ok.
  rewrite (chunking_count cs w Hch); unfold ChunkSize.
  replace (len w + 4096 - 1) with (len w + 4095) by lia; reflexivity.
Qed.

Lemma sendData_transaction_count_witness :
  Z.of_nat (length (tx_payloads
                      (calls (fst (run (sendData example_dev (repeat 0 4096 ++ repeat 0 4096))
                                       env_ok)))))
  = 2.
Proof.
  refine (sendData_transaction_count 0%nat 9%nat None None DefaultOpts
            (repeat 0 4096 ++ repeat 0 4096) _).
  vm_compute; discriminate.
Defined.

(* ================================================================= *)
(** ** Coordinates outside sixteen bits *)

Lemma wrap_int_shift (z : Z) : exists q, wrap_int z = z + q * 2 ^ 64.
Proof.
  unfold wrap_int, int_bits.
  change (2 ^ (64 - 1)) with 9223372036854775808.
  change (2 ^ 64) with 18446744073709551616.
  exists (- ((z + 9223372036854775808) / 18446744073709551616)).
  rewrite Z.mod_eq by lia; lia.
Qed.

Lemma mod_65536_split (z : Z) :
  Z.shiftr (z mod 65536) 8 = (z / 256) mod 256 /\
  (z mod 65536) mod 256 = z mod 256.
Proof.
  rewrite Z.shiftr_div_pow2 by lia; change (2 ^ 8) with 256.
  change 65536 with (256 * 256).
  rewrite Z.rem_mul_r by lia.
  split.
  - rewrite (Z.mul_comm 256), Z.div_add by lia.
    rewrite (Z.div_small (z mod 256)) by (apply Z.mod_pos_bound; lia); lia.
  - rewrite (Z.mul_comm 256), Z.mod_add by lia.
    apply Z.mod_mod; lia.
Qed.

(** The two bytes [SetWindow] derives from a coordinate depend on its low
    sixteen bits only. *)
Lemma coordinate_bytes (z : Z) :
  [to_byte (Z.shiftr (wrap_int z) 8); to_byte (wrap_int z)]
  = be16 (z mod 65536).
Proof.
  destruct (wrap_int_shift z) as (q & ->).
  destruct (mod_65536_split z) as (Hhi & Hlo).
  unfold be16, to_byte; rewrite Hhi, Hlo.
  rewrite Z.shiftr_div_pow2 by lia; change (2 ^ 8) with 256.
  change (2 ^ 64) with (72057594037927936 * 256).
  rewrite Z.mul_assoc, Z.div_add, Z.mod_add by lia.
  f_equal.
  change 72057594037927936 with (281474976710656 * 256).
  rewrite Z.mul_assoc, Z.mod_add by lia; reflexivity.
Qed.

Lemma SetWindow_truncates_run (k : conn) (p : pin) (rst bl : option pin)
    (o : Opts) (x0 y0 x1 y1 : Z) (t : trace) :
  SetWindow (mkDev k (Some p) rst bl o) x0 y0 x1 y1 env_ok t
  = (t ++ map ok
       (flat_map (step_calls p k)
          [ (ST7735_CASET, be16 ((x0 + OffsetLeft o) mod 65536)
                           ++ be16 ((x1 + OffsetLeft o) mod 65536));
            (ST7735_RASET, be16 ((y0 + OffsetTop o) mod 65536)
                           ++ be16 ((y1 + OffsetTop o) mod 65536));
            (ST7735_RAMWR, []) ]),
     Ok tt).
Proof.
  rewrite SetWindow_ok; unfold int_add.
  rewrite <- !coordinate_bytes; reflexivity.
Qed.

(** X4: [SetWindow] accepts any coordinates and never reports them: each
    offset-adjusted coordinate is sent as the big-endian encoding of its
    low sixteen bits, so a negative or too large coordinate is silently
    reduced modulo 65536. *)
Theorem SetWindow_truncates (k : conn) (p : pin) (rst bl : option pin)
    (o : Opts) (x0 y0 x1 y1 : Z) :
  run (SetWindow (mkDev k (Some p) rst bl o) x0 y0 x1 y1) env_ok
  = (map ok
       (flat_map (step_calls p k)
          [ (ST7735_CASET, be16 ((x0 + OffsetLeft o) mod 65536)
                           ++ be16 ((x1 + OffsetLeft o) mod 65536));
            (ST7735_RASET, be16 ((y0 + OffsetTop o) mod 65536)
                           ++ be16 ((y1 + OffsetTop o) mod 65536));
            (ST7735_RAMWR, []) ]),
     Ok tt).
Proof. apply SetWindow_truncates_run. Qed.

(* ================================================================= *)
(** ** Full-panel display *)

Lemma tx_payloads_app (a b : list call) :
  tx_payloads (a ++ b) = tx_payloads a ++ tx_payloads b.
Proof.
  induction a as [ | k a IH]; cbn [app tx_payloads]; [reflexivity | ].
  destruct k; cbn [app]; rewrite IH; reflexivity.
Qed.

(** [Display] on a transport that succeeds, from the trace of the window
    it sets. *)
Lemma Display_ok (k : conn) (p : pin) (rst bl : option pin) (o : Opts)
    (w : list Z) :
  run (Display (mkDev k (Some p) rst bl o) w) env_ok
  = (fst (run (SetWindow (mkDev k (Some p) rst bl o) 0 0
                 (to_byte (Width o - 1)) (to_byte (Height o - 1))) env_ok)
     ++ fst (run (sendData (mkDev k (Some p) rst bl o) w) env_ok),
     snd (run (sendData (mkDev k (Some p) rst bl o) w) env_ok)).
Proof.
  unfold run, Display; cbn [opts]; unfold bind at 1.
  rewrite !SetWindow_ok; cbn [fst app].
  apply framed_sendData.
Qed.

(** X5: on a panel at least one pixel wide and high, [Display] sets the
    window to the whole visible area, [(0, 0)] to
    [(Width - 1, Height - 1)], and then streams the bytes it was given,
    unchanged and in order, in chunks. *)
Theorem Display_streams_verbatim (k : conn) (p : pin) (rst bl : option pin)
    (o : Opts) (w : list Z) :
  1 <= Width o <= 255 -> 1 <= Height o <= 255 ->
  len w + ChunkSize <= max_int ->
  exists cs,
    run (Display (mkDev k (Some p) rst bl o) w) env_ok
    = (fst (run (SetWindow (mkDev k (Some p) rst bl o) 0 0
                   (Width o - 1) (Height o - 1)) env_ok)
       ++ ok (PinOut p High) :: map (tx_ok k) cs,
       Ok tt)
    /\ concat cs = w.
Proof.
  intros HW HH Hmax.
  destruct (sendData_ok (mkDev k (Some p) rst bl o) p w [] eq_refl Hmax)
    as (cs & Hrun & Hcat & _).
  exists cs; split; [ | exact Hcat].
  rewrite Display_ok; unfold run at 2 3; rewrite Hrun; cbn [fst snd app c].
  unfold to_byte; rewrite !Z.mod_small by lia; reflexivity.
Qed.

Lemma Display_streams_verbatim_witness :
  exists cs,
    run (Display example_dev [1; 2; 3; 4]) env_ok
    = (fst (run (SetWindow example_dev 0 0 79 159) env_ok)
       ++ ok (PinOut 9%nat High) :: map (tx_ok 0%nat) cs,
       Ok tt)
    /\ concat cs = [1; 2; 3; 4].
Proof.
  refine (Display_streams_verbatim 0%nat 9%nat None None DefaultOpts
            [1; 2; 3; 4] _ _ _);
    vm_compute; try split; discriminate.
Defined.

(** X6: the end coordinates of [Display] are computed in byte arithmetic:
    with a width (or height) of zero, [Width - 1] wraps to 255, so the
    window written spans 256 columns (or rows) instead of none. *)
Theorem Display_zero_size_wraps (k : conn) (p : pin) (rst bl : option pin)
    (h ol ot : Z) (w : list Z) :
  1 <= h <= 255 -> is_byte ol -> is_byte ot ->
  firstn 2 (tx_payloads
              (calls (fst (run (Display (mkDev k (Some p) rst bl
                                               (mkOpts 0 h ol ot)) w)
                               env_ok))))
  = [ [ST7735_CASET]; be16 ol ++ be16 (255 + ol) ]
  /\ firstn 2 (tx_payloads
                 (calls (fst (run (Display (mkDev k (Some p) rst bl
                                                  (mkOpts h 0 ol ot)) w)
                                  env_ok))))
     = [ [ST7735_CASET]; be16 ol ++ be16 (h - 1 + ol) ]
  /\ firstn 2 (skipn 2 (tx_payloads
                 (calls (fst (run (Display (mkDev k (Some p) rst bl
                                                  (mkOpts h 0 ol ot)) w)
                                  env_ok)))))
     = [ [ST7735_RASET]; be16 ot ++ be16 (255 + ot) ].
Proof.
  intros Hh Hol Hot; unfold is_byte in *.
  rewrite !Display_ok; cbn [Width Height fst].
  change (to_byte (0 - 1)) with 255.
  unfold to_byte at 1 2; rewrite !(Z.mod_small (h - 1)) by lia.
  unfold run at 1 3 5; rewrite !SetWindow_truncates_run; cbn [fst OffsetLeft OffsetTop].
  rewrite !Z.mod_small by lia.
  unfold calls; rewrite !map_app; fold (calls).
  repeat apply conj; reflexivity.
Qed.

Lemma Display_zero_size_wraps_witness :
  firstn 2 (tx_payloads
              (calls (fst (run (Display (mkDev 0%nat (Some 9%nat) None None
                                               (mkOpts 0 160 26 1)) [])
                               env_ok))))
  = [ [0x2A]; [0; 26; 1; 25] ].
Proof.
  refine (proj1 (Display_zero_size_wraps 0%nat 9%nat None None 160 26 1 []
                   _ _ _)); decide_closed.
Defined.

(** X7: for a geometry that fits the byte arithmetic of [Init]
    ([1 <= Width], [Width + OffsetLeft <= 256], and likewise for the rows),
    the address window programmed by [Init] is the window [Display] sets:
    the four address transactions (column-address-set, its parameters,
    row-address-set, its parameters) are the same. *)
Theorem Init_window_is_Display_window (k : conn) (p : pin) (rst bl : option pin)
    (o : Opts) (w : list Z) :
  1 <= Width o -> 0 <= OffsetLeft o -> Width o + OffsetLeft o <= 256 ->
  1 <= Height o -> 0 <= OffsetTop o -> Height o + OffsetTop o <= 256 ->
  firstn 4 (skipn 25 (tx_payloads
                        (calls (fst (run (Init (mkDev k (Some p) rst bl o))
                                         env_ok)))))
  = firstn 4 (tx_payloads
                (calls (fst (run (Display (mkDev k (Some p) rst bl o) w)
                                 env_ok)))).
Proof.
  intros HW HL HWL HH HT HHT.
  rewrite Display_ok; cbn [fst].
  unfold to_byte at 1 2; rewrite !Z.mod_small by lia.
  unfold run at 2; rewrite SetWindow_truncates_run; cbn [fst].
  rewrite !Z.mod_small by lia.
  rewrite calls_app, tx_payloads_app.
  transitivity [ [ST7735_CASET];
                 [0; OffsetLeft o; 0; Width o + OffsetLeft o - 1];
                 [ST7735_RASET];
                 [0; OffsetTop o; 0; Height o + OffsetTop o - 1] ].
  - rewrite <- (Z.mod_small (Width o + OffsetLeft o - 1) 256) by lia.
    rewrite <- (Z.mod_small (Height o + OffsetTop o - 1) 256) by lia.
    rewrite <- (Zminus_mod_idemp_l (Width o + OffsetLeft o) 1 256).
    rewrite <- (Zminus_mod_idemp_l (Height o + OffsetTop o) 1 256).
    reflexivity.
  - unfold be16; rewrite !Z.shiftr_div_pow2 by lia; change (2 ^ 8) with 256.
    rewrite !(Z.div_small _ 256), !(Z.mod_small _ 256) by lia.
    unfold ok; cbn [app map flat_map step_calls fst snd calls tx_payloads firstn].
    replace (Width o - 1 + OffsetLeft o) with (Width o + OffsetLeft o - 1) by lia.
    replace (Height o - 1 + OffsetTop o) with (Height o + OffsetTop o - 1) by lia.
    reflexivity.
Qed.

Lemma Init_window_is_Display_window_witness :
  firstn 4 (skipn 25 (tx_payloads
                        (calls (fst (run (Init example_dev) env_ok)))))
  = firstn 4 (tx_payloads
                (calls (fst (run (Display example_dev [7; 7]) env_ok)))).
Proof.
  refine (Init_window_is_Display_window 0%nat 9%nat None None DefaultOpts
            [7; 7] _ _ _ _ _ _); vm_compute; discriminate.
Defined.

(* ================================================================= *)
(** ** Power down *)

(** X8: [Halt] does not depend on the backlight: when the write of the
    backlight pin fails, [Halt] still lowers the select line, sends the
    sleep-in opcode and returns no error; the backlight is written, low,
    before anything else. *)
Theorem Halt_survives_backlight_failure (k : conn) (p q : pin)
    (rst : option pin) (o : Opts) (e : error) :
  p <> q ->
  run (Halt (mkDev k (Some p) rst (Some q) o)) (env_fail_pin q e)
  = ([ (PinOut q Low, Some e);
       ok (PinOut p Low);
       ok (ConnTx k [ST7735_SLPIN]) ],
     Ok tt).
Proof.
  intros Hpq; unfold run, Halt, SetBacklight, Powersave, sendCommand.
  cbn [backlight dc c pin_out].
  unfold bind, perform_ignore, perform, env_fail_pin; cbn [app].
  rewrite Nat.eqb_refl.
  apply Nat.eqb_neq in Hpq; rewrite Hpq; reflexivity.
Qed.

Lemma Halt_survives_backlight_failure_witness :
  run (Halt (mkDev 0%nat (Some 9%nat) None (Some 25%nat) DefaultOpts))
      (env_fail_pin 25%nat 3%nat)
  = ([ (PinOut 25%nat Low, Some 3%nat);
       ok (PinOut 9%nat Low);
       ok (ConnTx 0%nat [0x10]) ],
     Ok tt).
Proof.
  refine (Halt_survives_backlight_failure 0%nat 9%nat 25%nat None DefaultOpts
            3%nat _); discriminate.
Defined.

(* ================================================================= *)
(** ** Packed pixels *)

Lemma layout_facts (x : Z) :
  is_byte x ->
  Z.land x 0xF8 = Z.shiftl (x / 8) 3 /\
  Z.shiftl (Z.land x 0x1C) 3 = Z.shiftl ((x / 4) mod 8) 5.
Proof.
  intros Hx.
  assert (layout_check x = true) as H
      by (revert x Hx; apply forall_bytes; vm_compute; reflexivity).
  unfold layout_check in H; apply andb_prop in H as [H1 H2].
  apply Z.eqb_eq in H1; apply Z.eqb_eq in H2; split; assumption.
Qed.

Lemma channel_quotients (r g b : Z) :
  is_byte r -> is_byte g -> is_byte b ->
  0 <= r / 8 < 32 /\ 0 <= g / 4 < 64 /\ 0 <= b / 8 < 32.
Proof.
  unfold is_byte; intros Hr Hg Hb.
  repeat apply conj; try (apply Z.div_pos; lia);
    apply Z.div_lt_upper_bound; lia.
Qed.

(** X9: the two bytes streamed for a pixel are the big-endian halves of
    the packed colour, laid out as RRRRRGGG GGGBBBBB: the first byte holds
    the five top bits of red and the three top bits of green, the second
    the next three bits of green and the five top bits of blue. *)
Theorem pixel_bytes_layout (r g b a : Z) :
  is_byte r -> is_byte g -> is_byte b ->
  pixel_bytes (color.mkRGBA r g b a)
  = [ Z.lor (Z.land r 0xF8) (Z.shiftr g 5);
      Z.lor (Z.shiftl (Z.land g 0x1C) 3) (Z.shiftr b 3) ]
  /\ Z.lor (Z.land r 0xF8) (Z.shiftr g 5) * 256
     + Z.lor (Z.shiftl (Z.land g 0x1C) 3) (Z.shiftr b 3)
     = RGBATo565 (color.mkRGBA r g b a).
Proof.
  intros Hr Hg Hb.
  destruct (channel_quotients r g b Hr Hg Hb) as (Br & Bg & Bb).
  destruct (layout_facts r Hr) as (-> & _).
  destruct (layout_facts g Hg) as (_ & ->).
  assert (0 <= g / 32 < 8) as Bg5
      by (unfold is_byte in Hg; split;
          [apply Z.div_pos | apply Z.div_lt_upper_bound]; lia).
  assert (0 <= (g / 4) mod 8 < 8) as Bgm by (apply Z.mod_pos_bound; lia).
  assert (g / 4 = 8 * (g / 32) + (g / 4) mod 8) as Hg4.
  { replace (g / 32) with (g / 4 / 8)
      by (rewrite Z.div_div by lia; reflexivity).
    apply Z.div_mod; lia. }
  rewrite !(Z.shiftr_div_pow2 _ 5), !(Z.shiftr_div_pow2 _ 3) by lia.
  change (2 ^ 5) with 32; change (2 ^ 3) with 8.
  rewrite !lor_shiftl_low by (try change (2 ^ 3) with 8;
                              try change (2 ^ 5) with 32; lia).
  change (2 ^ 5) with 32; change (2 ^ 3) with 8.
  unfold pixel_bytes; rewrite RGBATo565_sum by assumption.
  assert (r / 8 * 2048 + g / 4 * 32 + b / 8
          = (r / 8 * 8 + g / 32) * 256 + ((g / 4) mod 8 * 32 + b / 8)) as Hsplit
      by lia.
  split; [ | lia].
  rewrite Hsplit, Z.shiftr_div_pow2 by lia; change (2 ^ 8) with 256.
  unfold to_byte.
  rewrite (Z.add_comm (_ * 256)), Z.div_add, Z.mod_add by lia.
  rewrite (Z.div_small (_ + b / 8)), (Z.mod_small (_ + b / 8)) by lia.
  rewrite Z.mod_small by lia; reflexivity.
Qed.

Lemma pixel_bytes_layout_witness :
  pixel_bytes (color.mkRGBA 18 52 86 255)
  = [ Z.lor (Z.land 18 0xF8) (Z.shiftr 52 5);
      Z.lor (Z.shiftl (Z.land 52 0x1C) 3) (Z.shiftr 86 3) ].
Proof.
  refine (proj1 (pixel_bytes_layout 18 52 86 255 _ _ _)); decide_closed.
Defined.

(** X10: packing loses exactly the low bits: two colours pack to the same
    value if and only if they agree on the five top bits of red, the six
    top bits of green and the five top bits of blue. *)
Theorem RGBATo565_same_iff (r1 g1 b1 a1 r2 g2 b2 a2 : Z) :
  is_byte r1 -> is_byte g1 -> is_byte b1 ->
  is_byte r2 -> is_byte g2 -> is_byte b2 ->
  (RGBATo565 (color.mkRGBA r1 g1 b1 a1) = RGBATo565 (color.mkRGBA r2 g2 b2 a2)
   <-> r1 / 8 = r2 / 8 /\ g1 / 4 = g2 / 4 /\ b1 / 8 = b2 / 8).
Proof.
  intros Hr1 Hg1 Hb1 Hr2 Hg2 Hb2.
  rewrite !RGBATo565_sum by assumption.
  destruct (channel_quotients r1 g1 b1 Hr1 Hg1 Hb1) as (? & ? & ?).
  destruct (channel_quotients r2 g2 b2 Hr2 Hg2 Hb2) as (? & ? & ?).
  lia.
Qed.

Lemma RGBATo565_same_iff_witness :
  RGBATo565 (color.mkRGBA 255 255 255 0) = RGBATo565 (color.mkRGBA 248 252 250 9).
Proof.
  refine (proj2 (RGBATo565_same_iff 255 255 255 0 248 252 250 9
                   _ _ _ _ _ _) _); decide_closed.
Defined.

(* ================================================================= *)
(** ** Images that fit the panel *)

(** [DisplayImage] on a transport that succeeds, for a well-formed image
    whose shifted bounds meet the visible rectangle: the window commands
    for the clipped rectangle, then the column-major bytes in chunks. *)
Lemma DisplayImage_run (k : conn) (p : pin) (rst bl : option pin)
    (o : Opts) (x y : Z) (img : RGBAImage) :
  wf_image img ->
  is_byte (Width o) -> is_byte (Height o) ->
  is_int (image.X (image.Min (Rect img)) + x) ->
  is_int (image.Y (image.Min (Rect img)) + y) ->
  is_int (image.X (image.Max (Rect img)) + x) ->
  is_int (image.Y (image.Max (Rect img)) + y) ->
  nonempty (clipped img x y o) ->
  exists cs,
    run (DisplayImage (mkDev k (Some p) rst bl o) x y img) env_ok
    = (fst (run (SetWindow (mkDev k (Some p) rst bl o)
                   (image.X (image.Min (clipped img x y o)))
                   (image.Y (image.Min (clipped img x y o)))
                   (image.X (image.Max (clipped img x y o)) - 1)
                   (image.Y (image.Max (clipped img x y o)) - 1)) env_ok)
       ++ ok (PinOut p High) :: map (tx_ok k) cs,
       Ok tt)
    /\ chunking
         (column_major img
            (image.X (image.Min (clipped img x y o)) - x)
            (image.X (image.Max (clipped img x y o)) - x)
            (image.Y (image.Min (clipped img x y o)) - y)
            (image.Y (image.Max (clipped img x y o)) - y))
         cs.
Proof.
  intros Hwf HW HH Hax Hay Hbx Hby (Hnx & Hny).
  pose proof Hwf as (Iax & Iay & Ibx & Iby & Idx & Idy & HS & HL & Hpix).
  pose proof min_int_neg as Hmin; pose proof max_int_big as Hmax.
  change (2 ^ 32) with 4294967296 in Hmax.
  unfold is_byte, is_int in *.
  destruct img as [pix stride [[ax ay] [bx by_]]].
  unfold clipped in *; cbn [Rect image.X image.Y image.Min image.Max] in *.
  set (cx0 := Z.max (ax + x) 0) in *; set (cy0 := Z.max (ay + y) 0) in *.
  set (cx1 := Z.min (bx + x) (Width o)) in *.
  set (cy1 := Z.min (by_ + y) (Height o)) in *.
  set (img := mkImage pix stride
                (image.mkRect (image.mkPoint ax ay) (image.mkPoint bx by_))) in *.
  set (d := mkDev k (Some p) rst bl o).
  (* the sub-image the loops read *)
  destruct (SubImage_inside img
              (image.mkRect (image.mkPoint (cx0 - x) (cy0 - y))
                            (image.mkPoint (cx1 - x) (cy1 - y))) Hwf)
    as (sub & Hsub & Hrect & Hwfsub & Hcol).
  { split; cbn [image.X image.Y image.Min image.Max]; lia. }
  { unfold inside; cbn [Rect img image.X image.Y image.Min image.Max]; lia. }
  (* the buffer built by the loops *)
  assert (image_loop sub (zrange (cx0 - x) (cx1 - x)) (zrange (cy0 - y) (cy1 - y)) []
          = Some (column_major img (cx0 - x) (cx1 - x) (cy0 - y) (cy1 - y)))
    as Hloop.
  { rewrite (image_loop_ok sub (stored_colour img)); [reflexivity | ].
    intros px py Hpx Hpy; apply zrange_In in Hpx; apply zrange_In in Hpy.
    assert (image.In (image.mkPoint px py)
              (image.mkRect (image.mkPoint (cx0 - x) (cy0 - y))
                            (image.mkPoint (cx1 - x) (cy1 - y))) = true) as Hin
        by (apply In_spec; cbn [image.X image.Y image.Min image.Max]; lia).
    rewrite At_wf, Hcol; try assumption; [reflexivity | now rewrite Hrect]. }
  pose proof (column_major_length img (cx0 - x) (cx1 - x) (cy0 - y) (cy1 - y)
                ltac:(lia) ltac:(lia)) as Hlen.
  replace (cx1 - x - (cx0 - x)) with (cx1 - cx0) in Hlen by lia.
  replace (cy1 - y - (cy0 - y)) with (cy1 - cy0) in Hlen by lia.
  assert (0 < cx1 - cx0 <= 255 /\ 0 < cy1 - cy0 <= 255) as (Bw & Bh) by lia.
  assert ((cx1 - cx0) * (cy1 - cy0) <= 255 * 255) as Harea
      by (apply Z.mul_le_mono_nonneg; lia).
  destruct (sendData_ok d p
              (column_major img (cx0 - x) (cx1 - x) (cy0 - y) (cy1 - y))
              (fst (run (SetWindow d cx0 cy0 (cx1 - 1) (cy1 - 1)) env_ok))
              eq_refl)
    as (cs & Hsend & Hcat).
  { rewrite Hlen; unfold ChunkSize; lia. }
  exists cs; split; [ | exact Hcat].
  - unfold run, DisplayImage, Bounds, maxBounds, image.Add, image.Sub, int_add, int_sub.
    unfold d; cbn [Rect img opts image.X image.Y image.Min image.Max].
    rewrite !(@wrap_int_id (_ + _)) by (unfold is_int; lia).
    rewrite Intersect_nonempty;
      cbn [image.X image.Y image.Min image.Max]; try (fold cx0 cx1; lia);
      try (fold cy0 cy1; lia).
    fold cx0 cy0 cx1 cy1.
    rewrite !(@wrap_int_id (_ - _)) by (unfold is_int; lia).
    unfold d, run in Hsend; rewrite SetWindow_ok in Hsend.
    unfold bind at 1; rewrite !SetWindow_ok; cbn [fst snd app] in *.
    rewrite Hsub; cbn [lift_option]; rewrite bind_ret.
    rewrite Hloop; cbn [lift_option]; rewrite bind_ret.
    exact Hsend.
Qed.

(** X11: an image whose shifted bounds lie inside the visible rectangle is
    streamed whole: the window is the shifted bounds (inclusive ends), all
    its pixels are sent, column by column, and the stream has
    [2 * width * height] bytes. *)
Theorem DisplayImage_inside_streams_all (k : conn) (p : pin) (rst bl : option pin)
    (o : Opts) (x y : Z) (img : RGBAImage) :
  wf_image img ->
  is_byte (Width o) -> is_byte (Height o) ->
  nonempty (Rect img) ->
  0 <= image.X (image.Min (Rect img)) + x ->
  image.X (image.Max (Rect img)) + x <= Width o ->
  0 <= image.Y (image.Min (Rect img)) + y ->
  image.Y (image.Max (Rect img)) + y <= Height o ->
  exists cs,
    run (DisplayImage (mkDev k (Some p) rst bl o) x y img) env_ok
    = (fst (run (SetWindow (mkDev k (Some p) rst bl o)
                   (image.X (image.Min (Rect img)) + x)
                   (image.Y (image.Min (Rect img)) + y)
                   (image.X (image.Max (Rect img)) + x - 1)
                   (image.Y (image.Max (Rect img)) + y - 1)) env_ok)
       ++ ok (PinOut p High) :: map (tx_ok k) cs,
       Ok tt)
    /\ concat cs
       = column_major img
           (image.X (image.Min (Rect img))) (image.X (image.Max (Rect img)))
           (image.Y (image.Min (Rect img))) (image.Y (image.Max (Rect img)))
    /\ len (concat cs)
       = 2 * (image.X (image.Max (Rect img)) - image.X (image.Min (Rect img)))
           * (image.Y (image.Max (Rect img)) - image.Y (image.Min (Rect img))).
Proof.
  intros Hwf HW HH (Hnx & Hny) Hx0 Hx1 Hy0 Hy1.
  pose proof min_int_neg; pose proof max_int_big as Hmax.
  change (2 ^ 32) with 4294967296 in Hmax.
  unfold is_byte in *.
  destruct (DisplayImage_run k p rst bl o x y img Hwf HW HH)
    as (cs & Hrun & Hcat & _); try (unfold is_int; lia).
  { unfold nonempty, clipped; cbn [image.X image.Y image.Min image.Max]; lia. }
  unfold clipped in Hrun, Hcat; cbn [image.X image.Y image.Min image.Max] in *.
  rewrite !Z.max_l, !Z.min_l in * by lia.
  replace (image.X (image.Min (Rect img)) + x - x)
    with (image.X (image.Min (Rect img))) in Hcat by lia.
  replace (image.X (image.Max (Rect img)) + x - x)
    with (image.X (image.Max (Rect img))) in Hcat by lia.
  replace (image.Y (image.Min (Rect img)) + y - y)
    with (image.Y (image.Min (Rect img))) in Hcat by lia.
  replace (image.Y (image.Max (Rect img)) + y - y)
    with (image.Y (image.Max (Rect img))) in Hcat by lia.
  exists cs; split; [exact Hrun | split; [exact Hcat | ]].
  rewrite Hcat; apply column_major_length; lia.
Qed.

Lemma DisplayImage_inside_streams_all_witness :
  exists cs,
    run (DisplayImage example_dev 3 5 example_img) env_ok
    = (fst (run (SetWindow example_dev 3 5 4 6) env_ok)
       ++ ok (PinOut 9%nat High) :: map (tx_ok 0%nat) cs,
       Ok tt)
    /\ concat cs = [248; 0; 0; 31; 7; 224; 255; 255]
    /\ len (concat cs) = 8.
Proof.
  destruct (DisplayImage_inside_streams_all 0%nat 9%nat None None DefaultOpts
              3 5 example_img example_img_wf)
    as (cs & Hrun & Hcat & Hlen).
  1-7: decide_closed.
  exists cs; split; [exact Hrun | split; [exact Hcat | exact Hlen]].
Defined.

(* ================================================================= *)
(** ** Painting an image *)

Lemma mul3NonNeg_ok (y z : Z) :
  0 <= y -> 0 <= z -> 4 * y * z <= max_int -> 4 * y <= max_int ->
  mul3NonNeg 4 y z = 4 * y * z.
Proof.
  intros Hy Hz Hmax Hyi; unfold mul3NonNeg.
  assert (max_int = 9223372036854775807) as Em by reflexivity.
  rewrite Em in *; change (2 ^ 64) with 18446744073709551616.
  assert (0 <= 4 * y * z) by (apply Z.mul_nonneg_nonneg; lia).
  replace (4 <? 0) with false by reflexivity.
  replace (y <? 0) with false by (symmetry; apply Z.ltb_ge; lia).
  replace (z <? 0) with false by (symmetry; apply Z.ltb_ge; lia).
  cbn [orb].
  replace (18446744073709551616 <=? 4 * y) with false
    by (symmetry; apply Z.leb_gt; lia).
  replace (18446744073709551616 <=? 4 * y * z) with false
    by (symmetry; apply Z.leb_gt; lia).
  rewrite wrap_int_id by (unfold is_int; pose proof min_int_neg; lia).
  replace (4 * y * z <? 0) with false by (symmetry; apply Z.ltb_ge; lia).
  rewrite Z.mod_small by lia; rewrite Z.eqb_refl; reflexivity.
Qed.

(** [NewRGBA] on a rectangle at the origin. *)
Lemma NewRGBA_canvas (w h : Z) :
  0 <= w <= max_int -> 0 <= h <= max_int -> 4 * w * h <= max_int ->
  4 * w <= max_int ->
  exists img,
    NewRGBA (image.mkRect (image.mkPoint 0 0) (image.mkPoint w h)) = Some img /\
    canvas w h img.
Proof.
  intros Hw Hh Hmax H4w; pose proof min_int_neg.
  assert (0 <= 4 * w * h) by (apply Z.mul_nonneg_nonneg; lia).
  unfold NewRGBA, image.Dx, image.Dy, int_sub, int_mul;
    cbn [image.X image.Y image.Min image.Max].
  rewrite !Z.sub_0_r, !wrap_int_id by (unfold is_int; lia).
  rewrite mul3NonNeg_ok by lia.
  replace (4 * w * h <? 0) with false by (symmetry; apply Z.ltb_ge; lia).
  eexists; split; [reflexivity | ].
  unfold canvas, len; cbn [Rect Stride Pix]; rewrite repeat_length.
  repeat apply conj; try reflexivity; lia.
Qed.

Lemma canvas_wf (w h : Z) (img : RGBAImage) :
  0 <= w <= max_int -> 0 <= h <= max_int -> 4 * w * h <= max_int ->
  canvas w h img -> wf_image img.
Proof.
  intros Hw Hh Hmax (HR & HS & HL); pose proof min_int_neg.
  unfold wf_image, is_int; rewrite HR, HS, HL;
    cbn [image.X image.Y image.Min image.Max].
  repeat apply conj; try lia.
  intros px py Hin; apply In_spec in Hin;
    cbn [image.X image.Y image.Min image.Max] in Hin.
  unfold pixel_offset; rewrite HR, HS; cbn [image.X image.Y image.Min].
  assert (py * w <= (h - 1) * w) by (apply Z.mul_le_mono_nonneg_r; lia).
  lia.
Qed.

(** Distinct pixels of a canvas occupy disjoint groups of four bytes. *)
Lemma canvas_offsets_apart (w : Z) (x y px py : Z) :
  0 <= x < w -> 0 <= px < w -> 0 <= y -> 0 <= py ->
  (px, py) <> (x, y) ->
  py * (4 * w) + px * 4 + 4 <= y * (4 * w) + x * 4
  \/ y * (4 * w) + x * 4 + 4 <= py * (4 * w) + px * 4.
Proof.
  intros Hx Hpx Hy Hpy Hne.
  destruct (Z.lt_trichotomy py y) as [Hlt | [Heq | Hgt]].
  - left.
    assert ((py + 1) * w <= y * w) by (apply Z.mul_le_mono_nonneg_r; lia).
    lia.
  - subst py.
    assert (px <> x) by (intros ->; now apply Hne).
    lia.
  - right.
    assert ((y + 1) * w <= py * w) by (apply Z.mul_le_mono_nonneg_r; lia).
    lia.
Qed.

Lemma nth_splice (l v : list Z) (i n : nat) (d : Z) :
  (i + length v <= length l)%nat ->
  (n < i \/ i + length v <= n)%nat ->
  nth n (firstn i l ++ v ++ skipn (i + length v) l) d = nth n l d.
Proof.
  intros Hlen [Hlow | Hhigh].
  - rewrite app_nth1 by (rewrite length_firstn; lia).
    rewrite nth_firstn.
    replace (n <? i)%nat with true by (symmetry; apply Nat.ltb_lt; lia).
    reflexivity.
  - rewrite app_nth2 by (rewrite length_firstn; lia).
    rewrite length_firstn, Nat.min_l by lia.
    rewrite app_nth2 by lia.
    rewrite nth_skipn; f_equal; lia.
Qed.

(** [Set] on a pixel of a canvas: the pixel takes the colour, every other
    pixel keeps its own, and the layout is unchanged. *)
Lemma RGBA_Set_canvas (w h : Z) (img : RGBAImage) (x y : Z) (k : color.RGBA) :
  0 <= w <= max_int -> 0 <= h <= max_int -> 4 * w * h <= max_int ->
  canvas w h img ->
  0 <= x < w -> 0 <= y < h ->
  exists img',
    RGBA_Set img x y k = Some img' /\
    canvas w h img' /\
    stored_colour img' x y = k /\
    forall px py,
      0 <= px < w -> 0 <= py < h -> (px, py) <> (x, y) ->
      stored_colour img' px py = stored_colour img px py.
Proof.
  intros Hw Hh Hmax Hc Hx Hy.
  pose proof (canvas_wf w h img Hw Hh Hmax Hc) as Hwf.
  pose proof Hc as (HR & HS & HL).
  assert (image.In (image.mkPoint x y) (Rect img) = true) as Hin
      by (apply In_spec; rewrite HR; cbn [image.X image.Y image.Min image.Max]; lia).
  destruct (PixOffset_exact img x y Hwf Hin) as (Hoff & Hpos).
  pose proof Hwf as (_ & _ & _ & _ & _ & _ & _ & HLmax & Hpix).
  pose proof (Hpix x y Hin) as Hi4.
  pose proof min_int_neg.
  set (i := pixel_offset img x y) in *.
  assert (int_add i 4 = i + 4) as Hadd
      by (unfold int_add; apply wrap_int_id; unfold is_int; lia).
  assert (slice (Pix img) i (i + 4)
          = Some (firstn 4 (skipn (Z.to_nat i) (Pix img)))) as Hs.
  { unfold slice.
    replace ((0 <=? i) && (i <=? i + 4) && (i + 4 <=? len (Pix img))) with true
      by (symmetry; rewrite !andb_true_iff, !Z.leb_le; lia).
    replace (Z.to_nat (i + 4 - i)) with 4%nat by lia; reflexivity. }
  exists (mkImage (firstn (Z.to_nat i) (Pix img)
                   ++ [color.R k; color.G k; color.B k; color.A k]
                   ++ skipn (Z.to_nat (i + 4)) (Pix img))
                  (Stride img) (Rect img)).
  assert (length (firstn (Z.to_nat i) (Pix img)) = Z.to_nat i) as Hlf
      by (rewrite length_firstn; unfold len in *; lia).
  repeat apply conj.
  - unfold RGBA_Set; rewrite Hin, Hoff, Hadd, Hs; reflexivity.
  - exact HR.
  - exact HS.
  - cbn [Pix]; unfold len in *.
    rewrite !length_app, Hlf, length_skipn; cbn [length]; lia.
  - unfold stored_colour, pixel_offset; cbn [Pix Stride Rect].
    fold (pixel_offset img x y); fold i.
    rewrite skipn_app, Hlf, Nat.sub_diag, skipn_all2 by lia.
    destruct k; reflexivity.
  - intros px py Hpx Hpy Hne.
    assert (image.In (image.mkPoint px py) (Rect img) = true) as Hin'
        by (apply In_spec; rewrite HR;
            cbn [image.X image.Y image.Min image.Max]; lia).
    pose proof (Hpix px py Hin') as Hj4.
    destruct (PixOffset_exact img px py Hwf Hin') as (_ & Hjpos).
    pose proof (canvas_offsets_apart w x y px py Hx Hpx
                  ltac:(lia) ltac:(lia) Hne) as Hapart.
    unfold stored_colour.
    change (pixel_offset
              (mkImage (firstn (Z.to_nat i) (Pix img)
                        ++ [color.R k; color.G k; color.B k; color.A k]
                        ++ skipn (Z.to_nat (i + 4)) (Pix img))
                       (Stride img) (Rect img)) px py)
      with (pixel_offset img px py).
    cbn [Pix].
    set (j := pixel_offset img px py) in *.
    assert (j + 4 <= i \/ i + 4 <= j) as Hij.
    { subst i j; unfold pixel_offset in *; rewrite HR, HS in *;
        cbn [image.X image.Y image.Min] in *.
      rewrite !Z.sub_0_r in *; lia. }
    rewrite !nth_skipn.
    replace (Z.to_nat (i + 4)) with (Z.to_nat i + length [color.R k; color.G k; color.B k; color.A k])%nat
      by (cbn [length]; lia).
    rewrite !nth_splice by (cbn [length]; unfold len in *; lia).
    reflexivity.
Qed.

Lemma fill_column_canvas (w h : Z) (x : Z) (k : color.RGBA) (ys : list Z) :
  0 <= w <= max_int -> 0 <= h <= max_int -> 4 * w * h <= max_int ->
  0 <= x < w -> (forall y, List.In y ys -> 0 <= y < h) ->
  forall img,
    canvas w h img ->
    exists img',
      fill_column img x ys k = Some img' /\
      canvas w h img' /\
      forall px py,
        0 <= px < w -> 0 <= py < h ->
        stored_colour img px py = k \/ (px = x /\ List.In py ys) ->
        stored_colour img' px py = k.
Proof.
  intros Hw Hh Hmax Hx.
  induction ys as [ | y ys IH]; intros Hys img Hc.
  - exists img; split; [reflexivity | split; [assumption | ]].
    intros px py _ _ [H | (_ & [])]; exact H.
  - destruct (RGBA_Set_canvas w h img x y k Hw Hh Hmax Hc Hx
                (Hys y (or_introl eq_refl)))
      as (img1 & Hset & Hc1 & Hxy & Hother).
    destruct (IH (fun y' H => Hys y' (or_intror H)) img1 Hc1)
      as (img' & Hfill & Hc' & Hall).
    exists img'; split; [ | split; [assumption | ]].
    + cbn [fill_column]; rewrite Hset; exact Hfill.
    + intros px py Hpx Hpy H; apply Hall; try assumption.
      destruct (Z.eq_dec px x) as [-> | Hnx];
        [destruct (Z.eq_dec py y) as [-> | Hny] | ].
      * now left.
      * rewrite Hother by (try assumption; congruence).
        destruct H as [H | (_ & [H | H])]; [now left | congruence | now right].
      * rewrite Hother by (try assumption; congruence).
        destruct H as [H | (H & _)]; [now left | congruence].
Qed.

Lemma fill_image_canvas (w h : Z) (k : color.RGBA) (xs ys : list Z) :
  0 <= w <= max_int -> 0 <= h <= max_int -> 4 * w * h <= max_int ->
  (forall x, List.In x xs -> 0 <= x < w) ->
  (forall y, List.In y ys -> 0 <= y < h) ->
  forall img,
    canvas w h img ->
    exists img',
      fill_image img xs ys k = Some img' /\
      canvas w h img' /\
      forall px py,
        0 <= px < w -> 0 <= py < h ->
        stored_colour img px py = k \/ (List.In px xs /\ List.In py ys) ->
        stored_colour img' px py = k.
Proof.
  intros Hw Hh Hmax Hxs Hys; revert Hxs.
  induction xs as [ | x xs IH]; intros Hxs img Hc.
  - exists img; split; [reflexivity | split; [assumption | ]].
    intros px py _ _ [H | ([] & _)]; exact H.
  - destruct (fill_column_canvas w h x k ys Hw Hh Hmax
                (Hxs x (or_introl eq_refl)) Hys img Hc)
      as (img1 & Hcol & Hc1 & Hall1).
    destruct (IH (fun x' H => Hxs x' (or_intror H)) img1 Hc1)
      as (img' & Hfill & Hc' & Hall).
    exists img'; split; [ | split; [assumption | ]].
    + cbn [fill_image]; rewrite Hcol; exact Hfill.
    + intros px py Hpx Hpy H; apply Hall; try assumption.
      destruct H as [H | ([<- | Hin] & Hy)].
      * left; apply Hall1; auto.
      * left; apply Hall1; auto.
      * now right.
Qed.

Lemma flat_map_uniform {A} (f : A -> list Z) (v : list Z) (l : list A) :
  (forall a, List.In a l -> f a = v) ->
  flat_map f l = concat (repeat v (length l)).
Proof.
  induction l as [ | a l IH]; intros H; [reflexivity | ].
  cbn [flat_map length repeat concat].
  rewrite (H a (or_introl eq_refl)), IH; [reflexivity | ].
  intros a' Ha; apply H; now right.
Qed.

Lemma concat_repeat_concat (v : list Z) (m n : nat) :
  concat (repeat (concat (repeat v m)) n) = concat (repeat v (n * m)).
Proof.
  induction n as [ | n IH]; [reflexivity | ].
  cbn [repeat concat Nat.mul]; rewrite IH, repeat_app, concat_app; reflexivity.
Qed.

(** The stream of a region painted in one colour. *)
Lemma column_major_uniform (img : RGBAImage) (k : color.RGBA)
    (xlo xhi ylo yhi : Z) :
  (forall px py, xlo <= px < xhi -> ylo <= py < yhi ->
                 stored_colour img px py = k) ->
  column_major img xlo xhi ylo yhi
  = concat (repeat (pixel_bytes k)
                   (Z.to_nat (xhi - xlo) * Z.to_nat (yhi - ylo))).
Proof.
  intros H; unfold column_major.
  rewrite (flat_map_uniform _
             (concat (repeat (pixel_bytes k) (Z.to_nat (yhi - ylo))))).
  - rewrite zrange_length; apply concat_repeat_concat.
  - intros px Hpx; apply zrange_In in Hpx.
    rewrite (flat_map_uniform _ (pixel_bytes k)).
    + now rewrite zrange_length.
    + intros py Hpy; apply zrange_In in Hpy; now rewrite H.
Qed.

(** [DisplayImage] of a canvas, on a transport that succeeds. *)
Lemma DisplayImage_canvas_run (k : conn) (p : pin) (rst bl : option pin)
    (o : Opts) (x y w h : Z) (img : RGBAImage) :
  0 <= w <= max_int -> 0 <= h <= max_int -> 4 * w * h <= max_int ->
  canvas w h img ->
  is_byte (Width o) -> is_byte (Height o) ->
  is_int x -> is_int y -> is_int (w + x) -> is_int (h + y) ->
  Z.max x 0 < Z.min (w + x) (Width o) ->
  Z.max y 0 < Z.min (h + y) (Height o) ->
  exists cs,
    run (DisplayImage (mkDev k (Some p) rst bl o) x y img) env_ok
    = (fst (run (SetWindow (mkDev k (Some p) rst bl o)
                   (Z.max x 0) (Z.max y 0)
                   (Z.min (w + x) (Width o) - 1)
                   (Z.min (h + y) (Height o) - 1)) env_ok)
       ++ ok (PinOut p High) :: map (tx_ok k) cs,
       Ok tt)
    /\ chunking
         (column_major img (Z.max x 0 - x) (Z.min (w + x) (Width o) - x)
                           (Z.max y 0 - y) (Z.min (h + y) (Height o) - y))
         cs.
Proof.
  intros Hw Hh Hmax Hc HW HH Hx Hy Hwx Hhy Hcx Hcy.
  pose proof (canvas_wf w h img Hw Hh Hmax Hc) as Hwf.
  destruct img as [pix s r]; destruct Hc as (HR & HS & HL);
    cbn [Rect Stride Pix] in *; subst r.
  apply (DisplayImage_run k p rst bl o x y _ Hwf HW HH); try assumption.
  unfold nonempty, clipped; cbn [Rect image.X image.Y image.Min image.Max]; lia.
Qed.

(** X12: the display command paints what it says.  For a [width] x
    [height] rectangle of positive size whose placement at
    [(offsetLeft, offsetTop)] meets the visible rectangle, the command
    sets the window to the visible part of the rectangle and streams one
    and the same pair of bytes, the packed colour, once per visible
    pixel. *)
Theorem DisplayCommand_draw_fills (k : conn) (p : pin) (rst bl : option pin)
    (o : Opts) (x y w h : Z) (colour : color.RGBA) :
  is_byte (Width o) -> is_byte (Height o) ->
  is_int x -> is_int y -> is_int (w + x) -> is_int (h + y) ->
  4 * w * h <= max_int ->
  Z.max x 0 < Z.min (w + x) (Width o) ->
  Z.max y 0 < Z.min (h + y) (Height o) ->
  exists cs,
    run (DisplayCommand_draw (mkDev k (Some p) rst bl o) x y w h colour) env_ok
    = (fst (run (SetWindow (mkDev k (Some p) rst bl o)
                   (Z.max x 0) (Z.max y 0)
                   (Z.min (w + x) (Width o) - 1)
                   (Z.min (h + y) (Height o) - 1)) env_ok)
       ++ ok (PinOut p High) :: map (tx_ok k) cs,
       Ok tt)
    /\ concat cs
       = concat (repeat (pixel_bytes colour)
                   (Z.to_nat (Z.min (w + x) (Width o) - Z.max x 0)
                    * Z.to_nat (Z.min (h + y) (Height o) - Z.max y 0))).
Proof.
  intros HW HH Hx Hy Hwx Hhy Hmax Hcx Hcy.
  pose proof min_int_neg as Hmin.
  assert (1 <= w /\ 1 <= h) as (Hw1 & Hh1) by lia.
  assert (w <= w * h /\ h <= w * h) as (Hww & Hhh) by nia.
  assert (0 <= w <= max_int) as Hw by lia.
  assert (0 <= h <= max_int) as Hh by lia.
  destruct (NewRGBA_canvas w h Hw Hh Hmax ltac:(lia)) as (img0 & Hnew & Hc0).
  destruct (fill_image_canvas w h colour (zrange 0 w) (zrange 0 h) Hw Hh Hmax
              (fun x' H => proj1 (zrange_In 0 w x') H)
              (fun y' H => proj1 (zrange_In 0 h y') H) img0 Hc0)
    as (img & Hfill & Hc & Hall).
  destruct (DisplayImage_canvas_run k p rst bl o x y w h img
              Hw Hh Hmax Hc HW HH Hx Hy Hwx Hhy Hcx Hcy)
    as (cs & Hrun & Hcat & _).
  exists cs; split.
  - rewrite <- Hrun.
    unfold run, DisplayCommand_draw; cbn [image.X image.Y image.Min image.Max].
    rewrite Hnew; cbn [lift_option]; rewrite bind_ret.
    rewrite Hfill; cbn [lift_option]; rewrite bind_ret.
    reflexivity.
  - rewrite Hcat, (column_major_uniform img colour).
    + replace (Z.min (w + x) (Width o) - x - (Z.max x 0 - x))
        with (Z.min (w + x) (Width o) - Z.max x 0) by lia.
      replace (Z.min (h + y) (Height o) - y - (Z.max y 0 - y))
        with (Z.min (h + y) (Height o) - Z.max y 0) by lia.
      reflexivity.
    + intros px py Hpx Hpy; apply Hall; try lia.
      right; split; apply zrange_In; lia.
Qed.

Lemma DisplayCommand_draw_fills_witness :
  exists cs,
    run (DisplayCommand_draw example_dev 79 158 2 3
           (DisplayCommand_colorRGBA 0xff0000)) env_ok
    = (fst (run (SetWindow example_dev 79 158 79 159) env_ok)
       ++ ok (PinOut 9%nat High) :: map (tx_ok 0%nat) cs,
       Ok tt)
    /\ concat cs = [248; 0; 248; 0].
Proof.
  destruct (DisplayCommand_draw_fills 0%nat 9%nat None None DefaultOpts
              79 158 2 3 (DisplayCommand_colorRGBA 0xff0000))
    as (cs & Hrun & Hcat).
  1-9: decide_closed.
  exists cs; split; [exact Hrun | exact Hcat].
Defined.



(* ================================================================= *)
(** ** A full-panel image *)

Lemma app_inj_length {A} (a a' b b' : list A) :
  length a = length a' -> a ++ b = a' ++ b' -> a = a' /\ b = b'.
Proof.
  revert a'; induction a as [ | x a IH]; intros [ | x' a'] Hlen Heq;
    try discriminate; [now split | ].
  cbn [app] in Heq; inversion Heq; subst.
  destruct (IH a' ltac:(cbn [length] in Hlen; lia) H1) as (-> & ->).
  now split.
Qed.

Lemma chunks_nonempty_length (cs : list (list Z)) :
  cs <> [] -> Forall (fun ch => 1 <= len ch <= ChunkSize) cs ->
  1 <= len (concat cs).
Proof.
  destruct cs as [ | ch cs]; [easy | intros _ Hall].
  inversion Hall as [ | ? ? Hch _]; subst.
  unfold len in *; cbn [concat]; rewrite length_app; lia.
Qed.

(** A payload has one chunking only. *)
Lemma chunking_unique (cs : list (list Z)) :
  forall cs' w, chunking w cs -> chunking w cs' -> cs = cs'.
Proof.
  induction cs as [ | ch rest IH]; intros cs' w (Hc & Ha & Hi) (Hc' & Ha' & Hi').
  - cbn [concat] in Hc; rewrite <- Hc in Hc'.
    symmetry; now apply chunks_of_nil.
  - rewrite <- Hc in Hc'; clear Hc.
    destruct cs' as [ | ch' rest'].
    { pose proof (chunks_of_nil _ (eq_sym Hc') Ha); discriminate. }
    inversion Ha as [ | ? ? Hch Ha1]; inversion Ha' as [ | ? ? Hch' Ha1'].
    cbn [concat] in Hc'.
    assert (rest <> [] -> len ch = ChunkSize) as Hfull.
    { destruct rest as [ | r0 r]; [easy | intros _].
      change (removelast (ch :: r0 :: r)) with (ch :: removelast (r0 :: r)) in Hi.
      now inversion Hi. }
    assert (rest' <> [] -> len ch' = ChunkSize) as Hfull'.
    { destruct rest' as [ | r0 r]; [easy | intros _].
      change (removelast (ch' :: r0 :: r)) with (ch' :: removelast (r0 :: r)) in Hi'.
      now inversion Hi'. }
    assert (length ch' = length ch) as Hlen.
    { pose proof (f_equal (@length Z) Hc') as HL.
      rewrite !length_app in HL.
      unfold len, ChunkSize in *.
      destruct rest as [ | r0 r]; destruct rest' as [ | r0' r'].
      - cbn [concat length] in HL; lia.
      - pose proof (chunks_nonempty_length (r0' :: r') ltac:(easy) Ha1') as Hn.
        specialize (Hfull' ltac:(easy)).
        unfold len in Hn; cbn [concat length] in HL; lia.
      - pose proof (chunks_nonempty_length (r0 :: r) ltac:(easy) Ha1) as Hn.
        specialize (Hfull ltac:(easy)).
        unfold len in Hn; cbn [concat length] in HL; lia.
      - specialize (Hfull ltac:(easy)); specialize (Hfull' ltac:(easy)); lia. }
    destruct (app_inj_length _ _ _ _ Hlen Hc') as (Hch_eq & Hrest).
    rewrite Hch_eq in *.
    f_equal; apply (IH rest' (concat rest)).
    + split; [reflexivity | split; [assumption | ]].
      destruct rest as [ | r0 r]; [constructor | ].
      change (removelast (ch :: r0 :: r)) with (ch :: removelast (r0 :: r)) in Hi.
      now inversion Hi.
    + split; [assumption | split; [assumption | ]].
      destruct rest' as [ | r0 r]; [constructor | ].
      change (removelast (ch :: r0 :: r)) with (ch :: removelast (r0 :: r)) in Hi'.
      now inversion Hi'.
Qed.

(** X14: displaying an image that covers the panel exactly is displaying
    its packed bytes: [DisplayImage] at (0, 0) of an image with bounds
    (0, 0)-(Width, Height) makes the same calls as [Display] on the
    column-major stream of the image. *)
Theorem DisplayImage_full_is_Display (k : conn) (p : pin) (rst bl : option pin)
    (o : Opts) (img : RGBAImage) :
  wf_image img ->
  Rect img = image.mkRect (image.mkPoint 0 0)
                          (image.mkPoint (Width o) (Height o)) ->
  1 <= Width o <= 255 -> 1 <= Height o <= 255 ->
  run (DisplayImage (mkDev k (Some p) rst bl o) 0 0 img) env_ok
  = run (Display (mkDev k (Some p) rst bl o)
                 (column_major img 0 (Width o) 0 (Height o))) env_ok.
Proof.
  intros Hwf HR HW HH.
  pose proof min_int_neg; pose proof max_int_big as Hmax.
  change (2 ^ 32) with 4294967296 in Hmax.
  destruct img as [pix s r]; cbn [Rect] in HR; subst r.
  destruct (DisplayImage_run k p rst bl o 0 0 _ Hwf)
    as (cs & Hrun & Hch);
    try (unfold is_byte, is_int; cbn [Rect image.X image.Y image.Min image.Max]; lia).
  { unfold nonempty, clipped; cbn [Rect image.X image.Y image.Min image.Max]; lia. }
  unfold clipped in Hrun, Hch;
    cbn [Rect image.X image.Y image.Min image.Max] in Hrun, Hch.
  rewrite ?Z.add_0_r, ?Z.min_id in Hrun, Hch.
  rewrite !Z.sub_0_r in Hch.
  change (Z.max 0 0) with 0 in Hrun, Hch.
  set (img := mkImage pix s
                (image.mkRect (image.mkPoint 0 0)
                              (image.mkPoint (Width o) (Height o)))) in *.
  pose proof (column_major_length img 0 (Width o) 0 (Height o)
                ltac:(lia) ltac:(lia)) as Hlen.
  rewrite !Z.sub_0_r in Hlen.
  assert (Width o * Height o <= 255 * 255) as Harea
      by (apply Z.mul_le_mono_nonneg; lia).
  destruct (sendData_ok (mkDev k (Some p) rst bl o) p
              (column_major img 0 (Width o) 0 (Height o)) [] eq_refl)
    as (cs' & Hsend & Hch').
  { rewrite Hlen; unfold ChunkSize; lia. }
  rewrite (chunking_unique cs' cs _ Hch' Hch) in Hsend.
  rewrite Hrun, Display_ok; unfold run at 3 4; rewrite Hsend.
  unfold to_byte; rewrite !Z.mod_small by lia; reflexivity.
Qed.

Lemma DisplayImage_full_is_Display_witness :
  run (DisplayImage (mkDev 0%nat (Some 9%nat) None None (mkOpts 2 2 26 1))
                    0 0 example_img) env_ok
  = run (Display (mkDev 0%nat (Some 9%nat) None None (mkOpts 2 2 26 1))
                 (column_major example_img 0 2 0 2)) env_ok.
Proof.
  refine (DisplayImage_full_is_Display 0%nat 9%nat None None (mkOpts 2 2 26 1)
            example_img example_img_wf _ _ _);
    [reflexivity | decide_closed | decide_closed].
Defined.

(* ================================================================= *)
(** ** Handles without select pin *)

(** X15: a handle whose select pin is nil never sends anything: [Init],
    [Powersave], [SetWindow], [DisplayImage] and [Display] panic before
    their first call, on every environment. *)
Theorem nil_select_pin_panics (k : conn) (rst bl : option pin) (o : Opts)
    (E : env) (t : trace) :
  Init (mkDev k None rst bl o) E t = (t, Panic)
  /\ Powersave (mkDev k None rst bl o) E t = (t, Panic)
  /\ (forall x0 y0 x1 y1,
         SetWindow (mkDev k None rst bl o) x0 y0 x1 y1 E t = (t, Panic))
  /\ (forall x y img,
         DisplayImage (mkDev k None rst bl o) x y img E t = (t, Panic))
  /\ (forall w, Display (mkDev k None rst bl o) w E t = (t, Panic)).
Proof.
  repeat apply conj; intros; reflexivity.
Qed.

(* ================================================================= *)
(** ** Command line *)

Module cmdline.
Import String.
Local Open Scope string_scope.

Lemma dispatch_unknown (commands : list cmd.Command) (name : string)
    (rest : list string) :
  ~ List.In name (map cmd.Name commands) ->
  cmd.dispatch commands name rest = Some ("unknown command: " ++ name).
Proof.
  induction commands as [ | c cs IH]; intros Hn; [reflexivity | ].
  cbn [cmd.dispatch].
  destruct (String.eqb_spec name (cmd.Name c)) as [Heq | Hne].
  - exfalso; apply Hn; left; now symmetry.
  - apply IH; intros Hin; apply Hn; now right.
Qed.

Lemma dispatch_first (pre post : list cmd.Command) (c : cmd.Command)
    (rest : list string) :
  ~ List.In (cmd.Name c) (map cmd.Name pre) ->
  cmd.dispatch (pre ++ c :: post) (cmd.Name c) rest
  = match cmd.Init c rest with
    | Some err => Some err
    | None => cmd.Execute_ c rest
    end.
Proof.
  induction pre as [ | c0 pre IH]; intros Hn; cbn [app cmd.dispatch].
  - now rewrite String.eqb_refl.
  - destruct (String.eqb_spec (cmd.Name c) (cmd.Name c0)) as [Heq | Hne].
    + exfalso; apply Hn; left; now symmetry.
    + apply IH; intros Hin; apply Hn; now right.
Qed.

(** X16: [Execute] runs the first command whose name is the first
    argument, giving it the remaining arguments, and runs its [Execute]
    only if its [Init] returned no error; without a first argument it
    reports a missing command, and with a name that no command bears an
    unknown command.  The power-save command is not among the commands
    listed, so its name is answered with that error. *)
Theorem Execute_dispatches (commands : list cmd.Command) :
  (forall args, List.hd "" args = "" ->
                cmd.Execute commands args = Some "Missing command")
  /\ (forall name rest,
         name <> "" -> ~ List.In name (map cmd.Name commands) ->
         cmd.Execute commands (name :: rest)
         = Some ("unknown command: " ++ name))
  /\ (forall pre c post rest,
         commands = (pre ++ c :: post)%list ->
         cmd.Name c <> "" -> ~ List.In (cmd.Name c) (map cmd.Name pre) ->
         cmd.Execute commands (cmd.Name c :: rest)
         = match cmd.Init c rest with
           | Some err => Some err
           | None => cmd.Execute_ c rest
           end)
  /\ (forall rest,
         map cmd.Name commands = cmd.registered_names ->
         cmd.Execute commands (cmd.powersave_name :: rest)
         = Some "unknown command: powersave").
Proof.
  repeat apply conj.
  - intros args Hhd; unfold cmd.Execute; rewrite Hhd; reflexivity.
  - intros name rest Hne Hn; unfold cmd.Execute; cbn [List.hd List.tl].
    destruct (String.eqb_spec name "") as [-> | _]; [now elim Hne | ].
    now apply dispatch_unknown.
  - intros pre c post rest -> Hne Hn; unfold cmd.Execute; cbn [List.hd List.tl].
    destruct (String.eqb_spec (cmd.Name c) "") as [Heq | _]; [now elim Hne | ].
    now apply dispatch_first.
  - intros rest Hnames; unfold cmd.Execute; cbn [List.hd List.tl].
    change (cmd.powersave_name =? "") with false; cbv iota.
    rewrite dispatch_unknown; [reflexivity | ].
    rewrite Hnames; unfold cmd.registered_names, cmd.powersave_name.
    cbn [List.In]; intros [H | [H | [H | [H | []]]]]; discriminate.
Qed.

Lemma Execute_dispatches_witness :
  cmd.Execute
    (map (fun n => cmd.mkCommand n (fun _ => None) (fun _ => None))
         cmd.registered_names)
    ("powersave" :: "-spi" :: "SPI0.1" :: nil)
  = Some "unknown command: powersave".
Proof.
  refine (proj2 (proj2 (proj2 (Execute_dispatches _))) _ _).
  reflexivity.
Defined.

(** X17: [DisplayCommand.Init] accepts the colour exactly when it lies in
    0..0xffffff (and the SPI device and the select pin are named); the
    colour it stores then has byte channels read as 0xRRGGBB, and alpha
    0. *)
Theorem DisplayCommand_Init_colour (spi dc : string) (color_ : Z) :
  spi <> "" -> dc <> "" ->
  ((0 <= color_ <= 0xffffff)%Z ->
   exists r g b,
     cmd.DisplayCommand_Init spi dc color_ = inr (color.mkRGBA r g b 0)
     /\ is_byte r /\ is_byte g /\ is_byte b
     /\ (r * 65536 + g * 256 + b = color_)%Z)
  /\ ((color_ < 0 \/ 0xffffff < color_)%Z ->
      cmd.DisplayCommand_Init spi dc color_ = inl (cmd.ColorOutOfRange color_)).
Proof.
  intros Hspi Hdc; unfold cmd.DisplayCommand_Init.
  destruct spi as [ | a0 spi]; [now elim Hspi | ].
  destruct dc as [ | a1 dc]; [now elim Hdc | ].
  cbn [String.length Nat.eqb]; split.
  - intros Hc.
    replace ((color_ <? 0) || (color_ >? 16777215))%Z with false
      by (symmetry; rewrite orb_false_iff, Z.gtb_ltb, !Z.ltb_ge; lia).
    unfold DisplayCommand_colorRGBA, to_byte.
    change 255%Z with (Z.ones 8).
    rewrite !Z.land_ones, !Z.shiftr_div_pow2 by lia.
    change (2 ^ 16)%Z with 65536%Z; change (2 ^ 8)%Z with 256%Z.
    rewrite !Z.mod_mod by lia.
    assert (0 <= color_ / 65536 < 256)%Z
      by (split; [apply Z.div_pos | apply Z.div_lt_upper_bound]; lia).
    rewrite (Z.mod_small (color_ / 65536)) by lia.
    exists (color_ / 65536)%Z, ((color_ / 256) mod 256)%Z, (color_ mod 256)%Z.
    split; [reflexivity | ].
    unfold is_byte.
    pose proof (Z.mod_pos_bound (color_ / 256) 256 eq_refl).
    pose proof (Z.mod_pos_bound color_ 256 eq_refl).
    repeat apply conj; try lia.
    pose proof (Z.div_mod color_ 256 ltac:(lia)).
    pose proof (Z.div_mod (color_ / 256) 256 ltac:(lia)).
    replace (color_ / 256 / 256)%Z with (color_ / 65536)%Z in *
      by (rewrite Z.div_div by lia; reflexivity).
    lia.
  - intros Hc.
    replace ((color_ <? 0) || (color_ >? 16777215))%Z with true; [reflexivity | ].
    symmetry; rewrite orb_true_iff, Z.gtb_ltb, !Z.ltb_lt; lia.
Qed.

Lemma DisplayCommand_Init_colour_witness :
  exists r g b,
    cmd.DisplayCommand_Init "SPI0.1" "9" 0x123456 = inr (color.mkRGBA r g b 0)
    /\ is_byte r /\ is_byte g /\ is_byte b
    /\ (r * 65536 + g * 256 + b = 0x123456)%Z.
Proof.
  refine (proj1 (DisplayCommand_Init_colour "SPI0.1" "9" 0x123456 _ _) _);
    first [discriminate | decide_closed].
Defined.

End cmdline.
